(** * Session metrics and GPX export of the hiking-tracker watch face

    A shallow embedding of [src/App.tsx]: the [haversine] distance, the
    [generateGPX] serialiser and the state held by the [App] component
    together with its event handlers and effects.

    Modelling conventions.
    - A JavaScript [number] that carries a physical quantity (degrees,
      metres, kilometres, km/h) is a real number of [R]; the counters that
      the code only ever increments by one or assigns a rounded value
      ([elapsedTime], [calories], [screenIndex]) and the epoch timestamp are
      integers of [Z].  Rounding error, infinities and NaN of the IEEE
      doubles are outside this model of the physical quantities: what is
      proved of a distance or a speed holds of the code up to the rounding
      of its doubles, and only where the code's [haversine] does not take
      the square root of a negative double, that is, away from pairs of
      positions that are antipodal or nearly so.
    - The calories are an integer that a rounding of doubles decides, so
      they are computed on binary64 floats ([PrimFloat]), as the code
      computes them.
    - [number | null] is [option R].
    - The component state of [App] is a record; an event handler is a
      function [State -> State]; a [useEffect] is a function run after the
      handler when one of its dependencies changed.  A state updater runs
      once per update, as in a production build of React. *)

From Stdlib Require Import Floats.
From Stdlib Require Import Reals Lra Lia ZArith List Bool String Ascii.
From Stdlib Require Import DecimalString DecimalPos DecimalZ.
From Stdlib Require Strings.Byte.
Import ListNotations.

(* Decimal literals of doubles are read to the nearest binary64 value, as
   JavaScript reads them. *)
Set Warnings "-inexact-float".

Local Open Scope R_scope.

(** * Part I: the embedding *)

(** ** The part of the JavaScript runtime that the code calls *)

Module JS.

(** [x < y] on numbers. *)
Definition ltb (x y : R) : bool := if Rlt_dec x y then true else false.

(** [x === y] on numbers. *)
Definition eqb (x y : R) : bool := if Req_dec_T x y then true else false.

(** Truthiness of a number: every number but zero. *)
Definition truthy (x : R) : bool := negb (eqb x 0).

(** Truthiness of a [number | null]: [null] is falsy. *)
Definition truthy_opt (x : option R) : bool :=
  match x with
  | Some v => truthy v
  | None => false
  end.

(** [ToNumber] of a [number | null], as applied by [>] and [-]:
    [null] converts to zero. *)
Definition toNumber (x : option R) : R :=
  match x with
  | Some v => v
  | None => 0
  end.

(** [Math.atan2(y, x)]: the angle of the point [(x, y)], in [(-PI, PI]]. *)
Definition atan2 (y x : R) : R :=
  if Rlt_dec 0 x then atan (y / x)
  else if Rlt_dec x 0 then
         if Rle_dec 0 y then atan (y / x) + PI else atan (y / x) - PI
  else if Rlt_dec 0 y then PI / 2
  else if Rlt_dec y 0 then - (PI / 2)
  else 0.

(** [Math.floor]. *)
Definition floor (x : R) : Z := Int_part x.

(** [Math.round]: the nearest integer, a tie going up. *)
Definition round (x : R) : Z := floor (x + / 2).

End JS.

(** ** Data *)

(** [interface Point]. *)
Record Point : Type := mkPoint {
  lat : R;
  lng : R;
  alt : option R;
  timestamp : Z;
  speed : option R
}.

(** [position.coords] and [position] as the geolocation source delivers
    them to the success callback of [watchPosition]. *)
Record Coordinates : Type := mkCoordinates {
  latitude : R;
  longitude : R;
  altitude : option R;
  coords_speed : option R;
  accuracy : R
}.

Record Position : Type := mkPosition {
  coords : Coordinates;
  position_timestamp : Z
}.

(** The values of [status] and of [gpsSignal]. *)
Inductive Status : Type := idle | active | paused | summary.

Inductive Signal : Type := good | fair | poor | none.

Definition Status_eqb (a b : Status) : bool :=
  match a, b with
  | idle, idle | active, active | paused, paused | summary, summary => true
  | _, _ => false
  end.

(** The [useState] cells of [App] that hold the session.  The heart-rate
    and battery cells are fed by device plumbing only and no session
    handler reads them; they are left out. *)
Record State : Type := mkState {
  status : Status;
  points : list Point;
  distance : R;
  elapsedTime : Z;
  elevationGain : R;
  maxAltitude : R;
  currentSpeed : R;
  avgSpeed : R;
  gpsSignal : Signal;
  calories : Z;
  screenIndex : Z
}.

(** The state on mount: the initial value of every [useState]. *)
Definition initial : State :=
  {| status := idle; points := []; distance := 0; elapsedTime := 0%Z;
     elevationGain := 0; maxAltitude := 0; currentSpeed := 0; avgSpeed := 0;
     gpsSignal := none; calories := 0%Z; screenIndex := 0%Z |}.

(** The setters returned by [useState]. *)
Definition setStatus (v : Status) (s : State) : State :=
  mkState v (points s) (distance s) (elapsedTime s) (elevationGain s)
    (maxAltitude s) (currentSpeed s) (avgSpeed s) (gpsSignal s) (calories s)
    (screenIndex s).

Definition setPoints (v : list Point) (s : State) : State :=
  mkState (status s) v (distance s) (elapsedTime s) (elevationGain s)
    (maxAltitude s) (currentSpeed s) (avgSpeed s) (gpsSignal s) (calories s)
    (screenIndex s).

Definition setDistance (v : R) (s : State) : State :=
  mkState (status s) (points s) v (elapsedTime s) (elevationGain s)
    (maxAltitude s) (currentSpeed s) (avgSpeed s) (gpsSignal s) (calories s)
    (screenIndex s).

Definition setElapsedTime (v : Z) (s : State) : State :=
  mkState (status s) (points s) (distance s) v (elevationGain s)
    (maxAltitude s) (currentSpeed s) (avgSpeed s) (gpsSignal s) (calories s)
    (screenIndex s).

Definition setElevationGain (v : R) (s : State) : State :=
  mkState (status s) (points s) (distance s) (elapsedTime s) v
    (maxAltitude s) (currentSpeed s) (avgSpeed s) (gpsSignal s) (calories s)
    (screenIndex s).

Definition setMaxAltitude (v : R) (s : State) : State :=
  mkState (status s) (points s) (distance s) (elapsedTime s) (elevationGain s)
    v (currentSpeed s) (avgSpeed s) (gpsSignal s) (calories s)
    (screenIndex s).

Definition setCurrentSpeed (v : R) (s : State) : State :=
  mkState (status s) (points s) (distance s) (elapsedTime s) (elevationGain s)
    (maxAltitude s) v (avgSpeed s) (gpsSignal s) (calories s)
    (screenIndex s).

Definition setAvgSpeed (v : R) (s : State) : State :=
  mkState (status s) (points s) (distance s) (elapsedTime s) (elevationGain s)
    (maxAltitude s) (currentSpeed s) v (gpsSignal s) (calories s)
    (screenIndex s).

Definition setGpsSignal (v : Signal) (s : State) : State :=
  mkState (status s) (points s) (distance s) (elapsedTime s) (elevationGain s)
    (maxAltitude s) (currentSpeed s) (avgSpeed s) v (calories s)
    (screenIndex s).

Definition setCalories (v : Z) (s : State) : State :=
  mkState (status s) (points s) (distance s) (elapsedTime s) (elevationGain s)
    (maxAltitude s) (currentSpeed s) (avgSpeed s) (gpsSignal s) v
    (screenIndex s).

Definition setScreenIndex (v : Z) (s : State) : State :=
  mkState (status s) (points s) (distance s) (elapsedTime s) (elevationGain s)
    (maxAltitude s) (currentSpeed s) (avgSpeed s) (gpsSignal s) (calories s)
    v.

(** ** Great-circle distance *)

(** The [a] of [haversine]: the squared half-chord between the two
    positions. *)
Definition haversine_a (lat1 lon1 lat2 lon2 : R) : R :=
  let dLat := (lat2 - lat1) * PI / 180 in
  let dLon := (lon2 - lon1) * PI / 180 in
  sin (dLat / 2) * sin (dLat / 2) +
  cos (lat1 * PI / 180) * cos (lat2 * PI / 180) *
  sin (dLon / 2) * sin (dLon / 2).

(** [function haversine(lat1, lon1, lat2, lon2)]: kilometres between two
    positions given in degrees, on a sphere of radius 6371 km.  This is
    the formula of the code in exact arithmetic.  The code's doubles follow
    it up to rounding while [a] stays below 1; for positions that are
    antipodal or nearly so the rounded [a] can exceed 1 and [Math.sqrt]
    then returns no number ([haversine_a64] below). *)
Definition haversine (lat1 lon1 lat2 lon2 : R) : R :=
  let R := 6371 in
  let a := haversine_a lat1 lon1 lat2 lon2 in
  let c := 2 * JS.atan2 (sqrt a) (sqrt (1 - a)) in
  R * c.

(** ** The success and error callbacks of [watchPosition] *)

(** The three-way test on [accuracy] at the head of the callback. *)
Definition classify (acc : R) : Signal :=
  if JS.ltb acc 20 then good
  else if JS.ltb acc 50 then fair
  else poor.

(** [const newPoint: Point = {...}]. *)
Definition newPointOf (position : Position) : Point :=
  {| lat := latitude (coords position);
     lng := longitude (coords position);
     alt := altitude (coords position);
     timestamp := position_timestamp position;
     speed := coords_speed (coords position) |}.

(** [prev[prev.length - 1]] under the guard [prev.length > 0]. *)
Definition lastOf (prev : list Point) : option Point :=
  if (0 <? List.length prev)%nat
  then nth_error prev (List.length prev - 1)
  else None.

(** The guard of the elevation-gain update:
    [newPoint.alt && lastPoint.alt && newPoint.alt > lastPoint.alt]. *)
Definition climbs (newPoint lastPoint : Point) : bool :=
  JS.truthy_opt (alt newPoint) && JS.truthy_opt (alt lastPoint) &&
  JS.ltb (JS.toNumber (alt lastPoint)) (JS.toNumber (alt newPoint)).

(** The guard of the max-altitude update:
    [newPoint.alt && newPoint.alt > maxAltitude]. *)
Definition tops (newPoint : Point) (maxAlt : R) : bool :=
  JS.truthy_opt (alt newPoint) && JS.ltb maxAlt (JS.toNumber (alt newPoint)).

(** The updater passed to [setPoints], with the [setDistance],
    [setElevationGain] and [setMaxAltitude] calls it makes. *)
Definition appendPoint (newPoint : Point) (s : State) : State :=
  let prev := points s in
  let s1 :=
    match lastOf prev with
    | Some lastPoint =>
        let dist := haversine (lat lastPoint) (lng lastPoint)
                              (lat newPoint) (lng newPoint) in
        let s' := setDistance (distance s + dist) s in
        if climbs newPoint lastPoint
        then setElevationGain
               (elevationGain s' +
                (JS.toNumber (alt newPoint) - JS.toNumber (alt lastPoint))) s'
        else s'
    | None => s
    end in
  let s2 :=
    if tops newPoint (maxAltitude s)
    then setMaxAltitude (JS.toNumber (alt newPoint)) s1
    else s1 in
  setPoints (prev ++ [newPoint]) s2.

(** The success callback. *)
Definition onPosition (position : Position) (s : State) : State :=
  let s1 := setGpsSignal (classify (accuracy (coords position))) s in
  let s2 := appendPoint (newPointOf position) s1 in
  match coords_speed (coords position) with
  | Some v => setCurrentSpeed (v * 3.6) s2
  | None => s2
  end.

(** The error callback. *)
Definition onPositionError (s : State) : State := setGpsSignal none s.

(** ** The one-second interval *)

(** The double that holds an integer count; every count below [2 ^ 53] is
    a double. *)
Definition Number_of_Z (n : Z) : float :=
  PrimFloat.of_uint63 (Uint63.of_Z n).

(** [Math.round] of a finite double [x = n * 2 ^ e], computed exactly on
    its mantissa and exponent: the integer nearest to [x], a tie going
    up, that is [floor (x + 1/2)].  (The calories are the only use, and
    their argument is finite.) *)
Definition Math_round (x : float) : Z :=
  match Prim2SF x with
  | S754_finite sign m e =>
      let n := if sign then Z.neg m else Z.pos m in
      Z.shiftr (Z.shiftl (2 * n) e + 1) 1
  | _ => 0%Z
  end.

(** [Math.round(6.0 * 70 * (newTime / 3600))], in doubles. *)
Definition caloriesAt (newTime : Z) : Z :=
  Math_round (6.0 * 70 * (Number_of_Z newTime / 3600))%float.

Arguments caloriesAt : simpl never.

(** The callback of [setInterval]. *)
Definition onTick (s : State) : State :=
  let newTime := (elapsedTime s + 1)%Z in
  setElapsedTime newTime (setCalories (caloriesAt newTime) s).

(** ** The average-speed effect *)

(** The body of the effect. *)
Definition avgSpeedEffect (s : State) : State :=
  if (0 <? elapsedTime s)%Z
  then setAvgSpeed (distance s / (IZR (elapsedTime s) / 3600)) s
  else s.

(** Its dependency array [[distance, elapsedTime]]: did a value change
    between two renders. *)
Definition avgSpeedDeps (old new : State) : bool :=
  negb (JS.eqb (distance old) (distance new)) ||
  negb (Z.eqb (elapsedTime old) (elapsedTime new)).

(** ** Buttons *)

Inductive Button : Type :=
| PlayButton | PauseButton | StopButton | DownloadButton | ResetButton.

(** Which buttons the JSX renders in which [status]: the summary card
    replaces the main view, and each control of the main view has its own
    condition. *)
Definition rendered (st : Status) (b : Button) : bool :=
  match b with
  | DownloadButton | ResetButton => Status_eqb st summary
  | PlayButton => negb (Status_eqb st summary) && Status_eqb st idle
  | PauseButton => negb (Status_eqb st summary) && Status_eqb st active
  | StopButton =>
      negb (Status_eqb st summary) &&
      (Status_eqb st active || Status_eqb st paused)
  end.

(** [handleStart]; [connectHeartRate] touches the heart-rate cell only. *)
Definition handleStart (s : State) : State := setStatus active s.

(** The [onClick] of the second button of the summary card. *)
Definition handleReset (s : State) : State :=
  setScreenIndex 0%Z
    (setCalories 0%Z
       (setMaxAltitude 0
          (setElevationGain 0
             (setElapsedTime 0%Z
                (setDistance 0
                   (setPoints []
                      (setStatus idle s))))))).

(** The [onClick] of each button; the download leaves the state alone. *)
Definition onClick (b : Button) (s : State) : State :=
  match b with
  | PlayButton => handleStart s
  | PauseButton => setStatus paused s
  | StopButton => setStatus summary s
  | DownloadButton => s
  | ResetButton => handleReset s
  end.

(** [onDragEnd] of the main view. *)
Definition onDragEnd (offset_x : R) (s : State) : State :=
  let s1 := if JS.ltb offset_x (-50) then setScreenIndex 1%Z s else s in
  if JS.ltb 50 offset_x then setScreenIndex 0%Z s1 else s1.

(** ** Events *)

(** What can happen to the mounted component. *)
Inductive Event : Type :=
| Click (b : Button)
| Fix (position : Position)
| FixError
| Tick
| DragEnd (offset_x : R).

(** The handler an event reaches.  A button that is not rendered cannot be
    clicked; the position watch and the interval exist while [status] is
    [active] only (both effects subscribe under [status === 'active'] and
    unsubscribe in their cleanup). *)
Definition handle (ev : Event) (s : State) : State :=
  match ev with
  | Click b => if rendered (status s) b then onClick b s else s
  | Fix position =>
      if Status_eqb (status s) active then onPosition position s else s
  | FixError =>
      if Status_eqb (status s) active then onPositionError s else s
  | Tick => if Status_eqb (status s) active then onTick s else s
  | DragEnd x =>
      if negb (Status_eqb (status s) summary) then onDragEnd x s else s
  end.

(** One event: the handler, then the effect whose dependencies changed. *)
Definition step (ev : Event) (s : State) : State :=
  let s' := handle ev s in
  if avgSpeedDeps s s' then avgSpeedEffect s' else s'.

(** A sequence of events, oldest first. *)
Definition run (evs : list Event) (s : State) : State :=
  fold_left (fun acc ev => step ev acc) evs s.

(** ** Track export *)

Local Open Scope string_scope.

(** The line feed and the double quote of the string literals. *)
Definition LF : string := String "010"%char EmptyString.

Definition QUOT : string := String "034"%char EmptyString.

Section TrackExporter.

(** The two conversions of the runtime that the template literals apply:
    [Number.prototype.toString] for [${p.lat}], [${p.lng}] and [${p.alt}],
    and [new Date(t).toISOString()] for a timestamp of a fix (a time of
    acquisition, inside the range of [Date]). *)
Variable Number_toString : R -> string.
Variable Date_toISOString : Z -> string.

(** The callback of [points.forEach]: what one point appends to [gpx]. *)
Definition emitPoint (gpx : string) (p : Point) : string :=
  let gpx1 :=
    gpx ++ "      <trkpt lat=" ++ QUOT ++ Number_toString (lat p) ++ QUOT ++
           " lon=" ++ QUOT ++ Number_toString (lng p) ++ QUOT ++ ">" ++ LF in
  let gpx2 :=
    if JS.truthy_opt (alt p)
    then gpx1 ++ "        <ele>" ++ Number_toString (JS.toNumber (alt p)) ++
                 "</ele>" ++ LF
    else gpx1 in
  let gpx3 :=
    gpx2 ++ "        <time>" ++ Date_toISOString (timestamp p) ++
            "</time>" ++ LF in
  gpx3 ++ "      </trkpt>" ++ LF.

(** [function generateGPX(points)]. *)
Definition generateGPX (points : list Point) : string :=
  let gpx0 :=
    "<?xml version=" ++ QUOT ++ "1.0" ++ QUOT ++ " encoding=" ++ QUOT ++
    "UTF-8" ++ QUOT ++ "?>" ++ LF in
  let gpx1 :=
    gpx0 ++ "<gpx version=" ++ QUOT ++ "1.1" ++ QUOT ++ " creator=" ++ QUOT ++
            "Web Wear OS Hiking App" ++ QUOT ++ ">" ++ LF in
  let gpx2 := gpx1 ++ "  <trk>" ++ LF in
  let gpx3 := gpx2 ++ "    <name>Hiking Session</name>" ++ LF in
  let gpx4 := gpx3 ++ "    <trkseg>" ++ LF in
  let gpx5 := fold_left emitPoint points gpx4 in
  let gpx6 := gpx5 ++ "    </trkseg>" ++ LF in
  let gpx7 := gpx6 ++ "  </trk>" ++ LF in
  gpx7 ++ "</gpx>".

(** What the points append, without the text before them. *)
Definition body (ps : list Point) : string :=
  fold_left emitPoint ps EmptyString.

End TrackExporter.

(** ** Reading a document back

    A reader of the exported text, used to say what a document contains:
    its tags in order, whether they nest, and how often a piece of text
    occurs. *)

Inductive Tag : Type :=
| Prolog
| OpenTag (name : string)
| CloseTag (name : string).

(** The name of a tag: its text up to the first blank. *)
Fixpoint tagName (body : string) : string :=
  match body with
  | EmptyString => EmptyString
  | String c rest =>
      if Ascii.eqb c " "%char then EmptyString else String c (tagName rest)
  end.

Definition classifyTag (body : string) : Tag :=
  match body with
  | String "?"%char _ => Prolog
  | String "/"%char rest => CloseTag (tagName rest)
  | _ => OpenTag (tagName body)
  end.

(** The tags of a text, oldest first; [inTag] holds the text read since
    the last [<], when there is one.  [None]: a [<] inside a tag, or a tag
    left open at the end. *)
Fixpoint tagsFrom (s : string) (inTag : option string) : option (list Tag) :=
  match s, inTag with
  | EmptyString, None => Some []
  | EmptyString, Some _ => None
  | String c rest, None =>
      if Ascii.eqb c "<"%char then tagsFrom rest (Some EmptyString)
      else tagsFrom rest None
  | String c rest, Some body =>
      if Ascii.eqb c "<"%char then None
      else if Ascii.eqb c ">"%char then
             match tagsFrom rest None with
             | Some ts => Some (classifyTag body :: ts)
             | None => None
             end
      else tagsFrom rest (Some (body ++ String c EmptyString))
  end.

Definition tagsOf (s : string) : option (list Tag) := tagsFrom s None.

(** Do the tags nest: every closing tag closes the innermost open element,
    and nothing stays open.  [roots] counts the outermost elements. *)
Fixpoint nests (ts : list Tag) (stack : list string) (roots : nat) : bool :=
  match ts with
  | [] => match stack with [] => Nat.eqb roots 1 | _ :: _ => false end
  | Prolog :: ts' => nests ts' stack roots
  | OpenTag n :: ts' =>
      nests ts' (n :: stack)
        (match stack with [] => S roots | _ :: _ => roots end)
  | CloseTag n :: ts' =>
      match stack with
      | top :: stack' => String.eqb n top && nests ts' stack' roots
      | [] => false
      end
  end.

(** A text is a well-formed document when its tags can be read and nest
    under one root. *)
Definition wellFormed (s : string) : bool :=
  match tagsOf s with
  | Some ts => nests ts [] 0
  | None => false
  end.

(** Does a tag open an element of a name; how many elements of a name a
    document opens. *)
Definition opens (name : string) (t : Tag) : bool :=
  match t with
  | OpenTag n => String.eqb n name
  | _ => false
  end.

Definition countOpen (name : string) (s : string) : nat :=
  match tagsOf s with
  | Some ts => List.length (filter (opens name) ts)
  | None => 0
  end.

(** How often [pat] occurs in [s]. *)
Fixpoint occurrences (pat s : string) : nat :=
  match s with
  | EmptyString => 0
  | String _ rest =>
      (if prefix pat s then 1 else 0) + occurrences pat rest
  end.

(** A text without [<] and [>]: it opens and closes no tag. *)
Fixpoint plain (s : string) : bool :=
  match s with
  | EmptyString => true
  | String c rest =>
      negb (Ascii.eqb c "<"%char) && negb (Ascii.eqb c ">"%char) && plain rest
  end.

(** The tags a point is expected to contribute, and those of the document
    around the points. *)
Definition pointTags (p : Point) : list Tag :=
  OpenTag "trkpt" ::
  (if JS.truthy_opt (alt p) then [OpenTag "ele"; CloseTag "ele"] else []) ++
  [OpenTag "time"; CloseTag "time"; CloseTag "trkpt"].

Definition docOpen : list Tag :=
  [Prolog; OpenTag "gpx"; OpenTag "trk"; OpenTag "name"; CloseTag "name";
   OpenTag "trkseg"].

Definition docClose : list Tag :=
  [CloseTag "trkseg"; CloseTag "trk"; CloseTag "gpx"].

(** The text of a track point without elevation, from the texts of its
    latitude, longitude and time. *)
Definition trkptWithoutEle (latText lonText timeText : string) : string :=
  "      <trkpt lat=" ++ QUOT ++ latText ++ QUOT ++
  " lon=" ++ QUOT ++ lonText ++ QUOT ++ ">" ++ LF ++
  "        <time>" ++ timeText ++ "</time>" ++ LF ++
  "      </trkpt>" ++ LF.

(** The text before the points and the text after them. *)
Definition gpxHead : string :=
  "<?xml version=" ++ QUOT ++ "1.0" ++ QUOT ++ " encoding=" ++ QUOT ++
  "UTF-8" ++ QUOT ++ "?>" ++ LF ++
  "<gpx version=" ++ QUOT ++ "1.1" ++ QUOT ++ " creator=" ++ QUOT ++
  "Web Wear OS Hiking App" ++ QUOT ++ ">" ++ LF ++
  "  <trk>" ++ LF ++
  "    <name>Hiking Session</name>" ++ LF ++
  "    <trkseg>" ++ LF.

Definition gpxTail : string :=
  "    </trkseg>" ++ LF ++
  "  </trk>" ++ LF ++
  "</gpx>".

(** Does the export write an elevation for a point. *)
Definition hasEle (p : Point) : bool := JS.truthy_opt (alt p).

(** The document of an empty track. *)
Definition emptyDocument : string :=
  "<?xml version=" ++ QUOT ++ "1.0" ++ QUOT ++ " encoding=" ++ QUOT ++
  "UTF-8" ++ QUOT ++ "?>" ++ LF ++
  "<gpx version=" ++ QUOT ++ "1.1" ++ QUOT ++ " creator=" ++ QUOT ++
  "Web Wear OS Hiking App" ++ QUOT ++ ">" ++ LF ++
  "  <trk>" ++ LF ++
  "    <name>Hiking Session</name>" ++ LF ++
  "    <trkseg>" ++ LF ++
  "    </trkseg>" ++ LF ++
  "  </trk>" ++ LF ++
  "</gpx>".

(** Stand-ins for the two conversions of the runtime, for examples. *)
Definition zeroText (_ : R) : string := "0".

Definition epochText (_ : Z) : string := "1970-01-01T00:00:00.000Z".

Local Close Scope string_scope.

(** ** The quantities the specification speaks of *)

(** The great-circle distance between two recorded points. *)
Definition legLength (p q : Point) : R :=
  haversine (lat p) (lng p) (lat q) (lng q).

(** The distances between each point and the next, in arrival order. *)
Fixpoint legs (ps : list Point) : list R :=
  match ps with
  | p :: (q :: _) as rest => legLength p q :: legs rest
  | _ => []
  end.

(** Their sum. *)
Definition pathLength (ps : list Point) : R := fold_right Rplus 0 (legs ps).

(** A point with its altitude taken away when that altitude is zero, and a
    fix, an event and a sequence of events treated the same way. *)
Definition forgetZeroAlt (a : option R) : option R :=
  if JS.truthy_opt a then a else None.

Definition forgetZeroPoint (p : Point) : Point :=
  mkPoint (lat p) (lng p) (forgetZeroAlt (alt p)) (timestamp p) (speed p).

Definition forgetZeroPosition (position : Position) : Position :=
  mkPosition
    (mkCoordinates (latitude (coords position)) (longitude (coords position))
       (forgetZeroAlt (altitude (coords position)))
       (coords_speed (coords position)) (accuracy (coords position)))
    (position_timestamp position).

Definition forgetZeroEvent (ev : Event) : Event :=
  match ev with
  | Fix position => Fix (forgetZeroPosition position)
  | other => other
  end.

Definition forgetZeroState (s : State) : State :=
  setPoints (map forgetZeroPoint (points s)) s.

(** Two states that show the same: every cell equal, the recorded points
    equal up to altitudes of zero. *)
Definition sameDisplay (s t : State) : Prop :=
  forgetZeroState s = forgetZeroState t.

(** The transitions that the controls implement, as a table: the status a
    click leads to, [None] where the click changes nothing. *)
Definition transition (st : Status) (b : Button) : option Status :=
  match st, b with
  | idle, PlayButton => Some active
  | active, PauseButton => Some paused
  | active, StopButton => Some summary
  | paused, StopButton => Some summary
  | summary, ResetButton => Some idle
  | _, _ => None
  end.

(** ** Scenarios *)

(** A fix at sea level and a fix ten metres up, at the same place. *)
Definition seaLevelFix : Position :=
  mkPosition (mkCoordinates 0 0 (Some 0) None 15) 0.

Definition hillFix : Position :=
  mkPosition (mkCoordinates 0 0 (Some 10) None 15) 1000.

(** The same two fixes when the device reports no altitude for the
    first. *)
Definition noAltitudeFix : Position :=
  mkPosition (mkCoordinates 0 0 None None 15) 0.

(** Two fixes one hundredth of a degree apart on the equator, at 100 m and
    110 m, walking at one metre per second. *)
Definition trailheadFix : Position :=
  mkPosition (mkCoordinates 0 0 (Some 100) (Some 1) 15) 0.

Definition secondFix : Position :=
  mkPosition (mkCoordinates 0 0.01 (Some 110) (Some 1) 15) 1000.

(** Fixes of accuracy 15, 35 and 80. *)
Definition fixOfAccuracy (acc : R) : Position :=
  mkPosition (mkCoordinates 0 0 None None acc) 0.

(** A short hike, stopped and reset; the same followed by a session that
    is started and stopped at once. *)
Definition hikeThenReset : list Event :=
  [Click PlayButton; Fix trailheadFix; Tick; Fix secondFix;
   Click StopButton; Click ResetButton].

Definition hikeThenEmptySession : list Event :=
  hikeThenReset ++ [Click PlayButton; Click StopButton].

(** A walk over sea level told twice: with an altitude of zero, and with
    no altitude, for the first fix. *)
Definition seaLevelWalk : list Event :=
  [Click PlayButton; Fix seaLevelFix; Tick; Fix hillFix].

Definition noAltitudeWalk : list Event :=
  [Click PlayButton; Fix noAltitudeFix; Tick; Fix hillFix].

(** A session that is started, then paused. *)
Definition pausedSession : list Event := [Click PlayButton; Click PauseButton].

(** The reset button is never clicked in a sequence of events. *)
Definition neverReset (evs : list Event) : Prop :=
  Forall (fun ev => ev <> Click ResetButton) evs.

(** ** The elapsed time as the watch face writes it *)

Local Open Scope string_scope.

(** [n.toString()] for an integer: its decimal digits, after a minus sign
    when it is negative. *)
Definition Z_toString (n : Z) : string := NilZero.string_of_int (Z.to_int n).

Fixpoint repeatChar (c : ascii) (n : nat) : string :=
  match n with
  | O => EmptyString
  | S n' => String c (repeatChar c n')
  end.

(** [s.padStart(targetLength, pad)] for a pad of one character. *)
Definition padStart (targetLength : nat) (pad : ascii) (s : string) : string :=
  repeatChar pad (targetLength - String.length s) ++ s.

(** [function formatTime(seconds)], on the integer count of seconds it is
    called with; [%] is the remainder that takes the sign of the
    dividend. *)
Definition formatTime (seconds : Z) : string :=
  let h := (seconds / 3600)%Z in
  let m := (Z.rem seconds 3600 / 60)%Z in
  let s := Z.rem seconds 60 in
  if (0 <? h)%Z
  then Z_toString h ++ ":" ++ padStart 2 "0" (Z_toString m) ++ ":" ++
       padStart 2 "0" (Z_toString s)
  else padStart 2 "0" (Z_toString m) ++ ":" ++ padStart 2 "0" (Z_toString s).

(** The decimal digit of a number below ten, and the two digits of a
    number below one hundred. *)
Definition digitChar (d : Z) : ascii := ascii_of_nat (48 + Z.to_nat d).

Definition twoDigits (n : Z) : string :=
  String (digitChar (n / 10)) (String (digitChar (n mod 10)) EmptyString).

Local Close Scope string_scope.

(** ** Heart rate and battery *)

(** A [DataView] as its bytes; [getUint8] and the little-endian
    [getUint16], [None] where the runtime throws a [RangeError]. *)
Definition getUint8 (view : list Byte.byte) (byteOffset : nat) : option Z :=
  option_map (fun b => Z.of_N (Byte.to_N b)) (nth_error view byteOffset).

Definition getUint16LE (view : list Byte.byte) (byteOffset : nat)
  : option Z :=
  match getUint8 view byteOffset, getUint8 view (S byteOffset) with
  | Some lo, Some hi => Some (lo + 256 * hi)%Z
  | _, _ => None
  end.

(** The listener of [characteristicvaluechanged]: the rate it passes to
    [setHeartRate], [None] when a read throws and nothing is set. *)
Definition heartRateOfMeasurement (value : list Byte.byte) : option Z :=
  match getUint8 value 0 with
  | Some flags =>
      let rate16Bits := Z.land flags 1 in
      if (rate16Bits =? 0)%Z then getUint8 value 1 else getUint16LE value 1
  | None => None
  end.

(** The updater of the simulated heart rate, run every two seconds;
    [random] is the value [Math.random()] returned. *)
Definition simulatedBeat (random : R) (prev : option Z) : Z :=
  match prev with
  | Some p =>
      if (p =? 0)%Z then 85%Z else (p + (JS.floor (random * 5) - 2))%Z
  | None => 85%Z
  end.

(** The battery effect: the level of the battery manager as a percentage,
    100 when the browser has no battery manager. *)
Definition batteryLevelOf (battery : option R) : Z :=
  match battery with
  | Some level => JS.round (level * 100)
  | None => 100%Z
  end.

(** ** The map *)

(** [currentPos]: the position of the last recorded point. *)
Definition currentPos (s : State) : option (R * R) :=
  if (0 <? List.length (points s))%nat
  then option_map (fun p => (lat p, lng p))
         (nth_error (points s) (List.length (points s) - 1))
  else None.

(** The [center] of the map, the presence of the marker and of the trace
    line. *)
Definition mapCenter (s : State) : R * R :=
  match currentPos s with
  | Some c => c
  | None => (51.505, -0.09)
  end.

Definition markerShown (s : State) : bool :=
  match currentPos s with
  | Some _ => true
  | None => false
  end.

Definition polylineShown (s : State) : bool :=
  (1 <? List.length (points s))%nat.

(** ** Further quantities of a recorded track *)

(** The climb from a point to the next: the altitude gained when both
    altitudes count and the next is higher. *)
Definition climbOf (l p : Point) : R :=
  if climbs p l then JS.toNumber (alt p) - JS.toNumber (alt l) else 0.

Fixpoint climbsOf (ps : list Point) : list R :=
  match ps with
  | p :: (q :: _) as rest => climbOf p q :: climbsOf rest
  | _ => []
  end.

Definition totalClimb (ps : list Point) : R :=
  fold_right Rplus 0 (climbsOf ps).

(** The highest altitude of a track, zero when none is above zero. *)
Definition highest (ps : list Point) : R :=
  fold_left (fun m p => Rmax m (JS.toNumber (alt p))) ps 0.

(** The ticks of a sequence of events, and a sequence without clicks. *)
Definition isTick (ev : Event) : bool :=
  match ev with
  | Tick => true
  | _ => false
  end.

Definition countTicks (evs : list Event) : Z :=
  Z.of_nat (List.length (filter isTick evs)).

Definition noClicks (evs : list Event) : Prop :=
  Forall (fun ev => match ev with Click _ => False | _ => True end) evs.

(** Two states with the same recording: every cell but the status and the
    screen index. *)
Definition sameRecording (s t : State) : Prop :=
  points s = points t /\ distance s = distance t /\
  elapsedTime s = elapsedTime t /\ elevationGain s = elevationGain t /\
  maxAltitude s = maxAltitude t /\ currentSpeed s = currentSpeed t /\
  avgSpeed s = avgSpeed t /\ gpsSignal s = gpsSignal t /\
  calories s = calories t.

(** A state without the three cells that the reset leaves alone. *)
Definition forgetKept (s : State) : State :=
  setCurrentSpeed 0 (setAvgSpeed 0 (setGpsSignal none s)).

(** The [onClick] of the download button: the document handed to the
    browser, when the button is rendered. *)
Definition downloadedDocument (Number_toString : R -> string)
    (Date_toISOString : Z -> string) (s : State) : option string :=
  if rendered (status s) DownloadButton
  then Some (generateGPX Number_toString Date_toISOString (points s))
  else None.

(** A heart-rate notification in the 8-bit and in the 16-bit format. *)
Definition measurement8 : list Byte.byte := [Byte.x00; Byte.x48].

Definition measurement16 : list Byte.byte :=
  [Byte.x01; Byte.x2c; Byte.x01; Byte.xff].

(** ** Checks by evaluation *)

(** A test on every integer of [lo, lo + 2 ^ k), by halving the range. *)
Fixpoint allIn (P : Z -> bool) (k : nat) (lo : Z) : bool :=
  match k with
  | O => P lo
  | S k' => allIn P k' lo && allIn P k' (lo + 2 ^ Z.of_nat k')
  end.

(** Are the calories of [t] seconds an integer nearest to
    [6 * 70 * t / 3600], that is, within one half of it. *)
Definition caloriesNearest (t : Z) : bool :=
  (Z.abs (3600 * caloriesAt t - 6 * 70 * t) <=? 1800)%Z.

(** ** The great circle *)

(** The cosine of the angle that two positions, given in degrees, subtend
    at the centre of the sphere (the spherical law of cosines). *)
Definition centralCosine (lat1 lon1 lat2 lon2 : R) : R :=
  sin (lat1 * PI / 180) * sin (lat2 * PI / 180) +
  cos (lat1 * PI / 180) * cos (lat2 * PI / 180) *
  cos ((lon2 - lon1) * PI / 180).

(** The great-circle distance on a sphere of radius 6371 km: the radius
    times the central angle. *)
Definition greatCircle (lat1 lon1 lat2 lon2 : R) : R :=
  6371 * acos (centralCosine lat1 lon1 lat2 lon2).

(** Two positions that are not antipodal or nearly so: their central angle
    stays below about 179.92 degrees. *)
Definition notAntipodal (lat1 lon1 lat2 lon2 : R) : Prop :=
  -0.999999 <= centralCosine lat1 lon1 lat2 lon2.

(** The great-circle length of a track, and a track without a leg between
    nearly antipodal points. *)
Fixpoint greatCircleLegs (ps : list Point) : list R :=
  match ps with
  | p :: (q :: _) as rest =>
      greatCircle (lat p) (lng p) (lat q) (lng q) :: greatCircleLegs rest
  | _ => []
  end.

Definition greatCircleLength (ps : list Point) : R :=
  fold_right Rplus 0 (greatCircleLegs ps).

Fixpoint noAntipodalLeg (ps : list Point) : Prop :=
  match ps with
  | p :: (q :: _) as rest =>
      notAntipodal (lat p) (lng p) (lat q) (lng q) /\ noAntipodalLeg rest
  | _ => True
  end.

(** ** The haversine sum in double precision *)

(** The [a] of [haversine] as the code computes it, on doubles, from the
    four values that [Math.sin] and [Math.cos] return: [Math.sin(dLat/2)],
    [Math.cos(lat1 * Math.PI / 180)], [Math.cos(lat2 * Math.PI / 180)] and
    [Math.sin(dLon/2)]. *)
Definition haversine_a64 (sinHalfDLat cosLat1 cosLat2 sinHalfDLon : float)
  : float :=
  (sinHalfDLat * sinHalfDLat +
   cosLat1 * cosLat2 * sinHalfDLon * sinHalfDLon)%float.

(** The second argument of [Math.atan2] in [haversine]: [Math.sqrt(1-a)]. *)
Definition haversine_cosHalf64 (a : float) : float :=
  PrimFloat.sqrt (1 - a)%float.

(** * Part II: properties *)

(** ** Comparisons, rounding and the arctangent *)

Module JSFacts.

Lemma ltb_true x y : JS.ltb x y = true <-> x < y.
Proof. unfold JS.ltb; destruct (Rlt_dec x y); split; intros; (easy || lra). Qed.

Lemma ltb_false x y : JS.ltb x y = false <-> y <= x.
Proof. unfold JS.ltb; destruct (Rlt_dec x y); split; intros; (easy || lra). Qed.

Lemma eqb_true x y : JS.eqb x y = true <-> x = y.
Proof.
  unfold JS.eqb; destruct (Req_dec_T x y); split; intros; (easy || lra).
Qed.

Lemma eqb_false x y : JS.eqb x y = false <-> x <> y.
Proof.
  unfold JS.eqb; destruct (Req_dec_T x y); split; intros; (easy || lra).
Qed.

Lemma eqb_refl x : JS.eqb x x = true.
Proof. now apply eqb_true. Qed.

Lemma truthy_true x : JS.truthy x = true <-> x <> 0.
Proof. unfold JS.truthy. rewrite negb_true_iff. apply eqb_false. Qed.

Lemma truthy_false x : JS.truthy x = false <-> x = 0.
Proof. unfold JS.truthy. rewrite negb_false_iff. apply eqb_true. Qed.

Lemma truthy_opt_true a :
  JS.truthy_opt a = true <-> exists v, a = Some v /\ v <> 0.
Proof.
  destruct a as [v|]; simpl.
  - rewrite truthy_true. split.
    + intros H. now exists v.
    + intros (w & E & H). now inversion E; subst.
  - split; [discriminate | intros (w & E & _); discriminate].
Qed.

Lemma truthy_opt_false a :
  JS.truthy_opt a = false <-> a = None \/ a = Some 0.
Proof.
  destruct a as [v|]; simpl.
  - rewrite truthy_false. split.
    + intros ->. now right.
    + intros [E | E]; [discriminate | now inversion E].
  - split; auto.
Qed.

Lemma floor_spec x : IZR (JS.floor x) <= x < IZR (JS.floor x) + 1.
Proof.
  unfold JS.floor, Int_part. destruct (archimed x) as [Hup Hlow].
  rewrite minus_IZR. lra.
Qed.

Lemma floor_unique x (n : Z) : IZR n <= x < IZR n + 1 -> JS.floor x = n.
Proof.
  intros [Hlo Hhi]. destruct (floor_spec x) as [Flo Fhi].
  assert (H1 : (JS.floor x < n + 1)%Z).
  { apply lt_IZR. rewrite plus_IZR. lra. }
  assert (H2 : (n < JS.floor x + 1)%Z).
  { apply lt_IZR. rewrite plus_IZR. lra. }
  lia.
Qed.

Lemma floor_mono x y : x <= y -> (JS.floor x <= JS.floor y)%Z.
Proof.
  intros Hxy.
  destruct (floor_spec x) as [Xlo _], (floor_spec y) as [_ Yhi].
  assert (H : (JS.floor x < JS.floor y + 1)%Z).
  { apply lt_IZR. rewrite plus_IZR. lra. }
  lia.
Qed.

Lemma round_mono x y : x <= y -> (JS.round x <= JS.round y)%Z.
Proof. intros H. apply floor_mono. lra. Qed.

Lemma atan_nonneg x : 0 <= x -> 0 <= atan x.
Proof.
  intros [Hpos | <-].
  - left. rewrite <- atan_0. now apply atan_increasing.
  - rewrite atan_0. lra.
Qed.

Lemma atan_pos x : 0 < x -> 0 < atan x.
Proof. intros H. rewrite <- atan_0. now apply atan_increasing. Qed.

Lemma atan2_nonneg y x : 0 <= y -> 0 <= JS.atan2 y x.
Proof.
  intros Hy. unfold JS.atan2. pose proof PI_RGT_0 as Hpi.
  destruct (Rlt_dec 0 x) as [Hx | Hx].
  - apply atan_nonneg. apply Rmult_le_pos; [assumption|].
    left. now apply Rinv_0_lt_compat.
  - destruct (Rlt_dec x 0) as [Hx' | Hx'].
    + destruct (Rle_dec 0 y) as [_ | Hn]; [|contradiction].
      destruct (atan_bound (y / x)). lra.
    + destruct (Rlt_dec 0 y); [lra|].
      destruct (Rlt_dec y 0); lra.
Qed.

Lemma atan2_pos y x : 0 < y -> 0 < JS.atan2 y x.
Proof.
  intros Hy. unfold JS.atan2. pose proof PI_RGT_0 as Hpi.
  destruct (Rlt_dec 0 x) as [Hx | Hx].
  - apply atan_pos. apply Rmult_lt_0_compat; [assumption|].
    now apply Rinv_0_lt_compat.
  - destruct (Rlt_dec x 0) as [Hx' | Hx'].
    + destruct (Rle_dec 0 y) as [_ | Hn]; [|lra].
      destruct (atan_bound (y / x)). lra.
    + destruct (Rlt_dec 0 y); lra.
Qed.

End JSFacts.

(** Decide the comparisons of a goal whose operands [lra] can order. *)
Ltac js_compare :=
  repeat match goal with
  | |- context [JS.ltb ?a ?b] =>
      first [ rewrite (proj2 (JSFacts.ltb_true a b)) by lra
            | rewrite (proj2 (JSFacts.ltb_false a b)) by lra ]
  | |- context [JS.eqb ?a ?b] =>
      first [ rewrite (proj2 (JSFacts.eqb_true a b)) by lra
            | rewrite (proj2 (JSFacts.eqb_false a b)) by lra ]
  | |- context [JS.truthy ?a] =>
      first [ rewrite (proj2 (JSFacts.truthy_true a)) by lra
            | rewrite (proj2 (JSFacts.truthy_false a)) by lra ]
  end.

(** ** The haversine distance is a distance *)

Section HaversineFacts.

Variables lat1 lon1 lat2 lon2 : R.

(** The half-angle form of the squared sine. *)
Lemma sin_half_sqr x : sin (x / 2) * sin (x / 2) = (1 - cos x) / 2.
Proof.
  replace x with (2 * (x / 2)) at 3 by field.
  rewrite cos_2a_sin. field.
Qed.

(** In exact arithmetic the argument of both square roots lies between 0
    and 1. *)
Lemma haversine_a_range :
  0 <= haversine_a lat1 lon1 lat2 lon2 <= 1.
Proof.
  unfold haversine_a. cbv zeta.
  rewrite (sin_half_sqr ((lat2 - lat1) * PI / 180)).
  replace ((lat2 - lat1) * PI / 180)
    with (lat2 * PI / 180 - lat1 * PI / 180) by field.
  rewrite cos_minus.
  set (p1 := lat1 * PI / 180). set (p2 := lat2 * PI / 180).
  set (y := (lon2 - lon1) * PI / 180 / 2).
  pose proof (sin2_cos2 p1) as H1. pose proof (sin2_cos2 p2) as H2.
  pose proof (SIN_bound y) as Hy.
  unfold Rsqr in H1, H2.
  set (s1 := sin p1) in *. set (c1 := cos p1) in *.
  set (s2 := sin p2) in *. set (c2 := cos p2) in *.
  set (t := sin y) in *.
  assert (Ht : 0 <= t * t <= 1) by nra.
  set (k := 1 - 2 * (t * t)).
  assert (Hk : -1 <= k <= 1) by (unfold k; lra).
  assert (Hk2 : 0 <= c2 * c2 * (1 - k * k)) by (apply Rmult_le_pos; nra).
  assert (Hlo : s1 * s2 + c1 * c2 * k <= 1).
  { pose proof (Rle_0_sqr (s1 - s2)) as Q1.
    pose proof (Rle_0_sqr (c1 - c2 * k)) as Q2.
    unfold Rsqr in Q1, Q2. nra. }
  assert (Hhi : -1 <= s1 * s2 + c1 * c2 * k).
  { pose proof (Rle_0_sqr (s1 + s2)) as Q1.
    pose proof (Rle_0_sqr (c1 + c2 * k)) as Q2.
    unfold Rsqr in Q1, Q2. nra. }
  unfold k in Hlo, Hhi. nra.
Qed.

Lemma haversine_nonneg : 0 <= haversine lat1 lon1 lat2 lon2.
Proof.
  unfold haversine. cbv zeta.
  pose proof (JSFacts.atan2_nonneg
                (sqrt (haversine_a lat1 lon1 lat2 lon2))
                (sqrt (1 - haversine_a lat1 lon1 lat2 lon2))
                (sqrt_pos _)).
  nra.
Qed.

Lemma haversine_pos :
  0 < haversine_a lat1 lon1 lat2 lon2 -> 0 < haversine lat1 lon1 lat2 lon2.
Proof.
  intros Ha. unfold haversine. cbv zeta.
  pose proof (JSFacts.atan2_pos
                (sqrt (haversine_a lat1 lon1 lat2 lon2))
                (sqrt (1 - haversine_a lat1 lon1 lat2 lon2))
                (sqrt_lt_R0 _ Ha)).
  nra.
Qed.

End HaversineFacts.

(** A point that does not move is at distance zero. *)
Lemma haversine_same lat lon : haversine lat lon lat lon = 0.
Proof.
  unfold haversine, haversine_a. cbv zeta.
  replace ((lat - lat) * PI / 180 / 2) with 0 by field.
  replace ((lon - lon) * PI / 180 / 2) with 0 by field.
  rewrite sin_0.
  replace (0 * 0 + cos (lat * PI / 180) * cos (lat * PI / 180) * 0 * 0)
    with 0 by ring.
  rewrite sqrt_0, Rminus_0_r, sqrt_1.
  unfold JS.atan2.
  destruct (Rlt_dec 0 1) as [_ | H]; [|lra].
  replace (0 / 1) with 0 by field. rewrite atan_0. ring.
Qed.

(** One hundredth of a degree along the equator is a positive distance. *)
Lemma haversine_equator_step : 0 < haversine 0 0 0 0.01.
Proof.
  apply haversine_pos. unfold haversine_a. cbv zeta.
  replace ((0 - 0) * PI / 180 / 2) with 0 by field.
  replace (0 * PI / 180) with 0 by field.
  rewrite sin_0, cos_0.
  pose proof PI_RGT_0 as Hpi.
  assert (Hs : 0 < sin ((0.01 - 0) * PI / 180 / 2)).
  { apply sin_gt_0; lra. }
  nra.
Qed.

(** ** The last recorded point and the length of the path *)

Lemma lastOf_nil : lastOf [] = None.
Proof. reflexivity. Qed.

Lemma lastOf_snoc (l : list Point) (p : Point) : lastOf (l ++ [p]) = Some p.
Proof.
  unfold lastOf. rewrite length_app. simpl.
  replace (0 <? List.length l + 1)%nat with true
    by (symmetry; apply Nat.ltb_lt; lia).
  replace (List.length l + 1 - 1)%nat with (List.length l) by lia.
  rewrite nth_error_app2 by lia. now rewrite Nat.sub_diag.
Qed.

Lemma lastOf_none (l : list Point) : lastOf l = None -> l = [].
Proof.
  destruct l as [|a l] using rev_ind; [reflexivity|].
  rewrite lastOf_snoc. discriminate.
Qed.

Lemma lastOf_map (f : Point -> Point) (l : list Point) :
  lastOf (map f l) = option_map f (lastOf l).
Proof.
  destruct l as [|a l] using rev_ind; [reflexivity|].
  rewrite map_app. simpl. now rewrite !lastOf_snoc.
Qed.

Lemma legs_snoc (l : list Point) (p q : Point) :
  legs ((l ++ [p]) ++ [q]) = legs (l ++ [p]) ++ [legLength p q].
Proof.
  induction l as [|a l IH]; [reflexivity|].
  destruct l as [|b l].
  - reflexivity.
  - change (legs (((a :: b :: l) ++ [p]) ++ [q]))
      with (legLength a b :: legs (((b :: l) ++ [p]) ++ [q])).
    rewrite IH. reflexivity.
Qed.

Lemma sum_snoc (xs : list R) (x : R) :
  fold_right Rplus 0 (xs ++ [x]) = fold_right Rplus 0 xs + x.
Proof.
  induction xs as [|y xs IH]; simpl; [lra|]. rewrite IH. lra.
Qed.

(** Appending a point lengthens the path by the leg from the last point,
    when there is one. *)
Lemma pathLength_snoc (l : list Point) (q : Point) :
  pathLength (l ++ [q]) =
  pathLength l + match lastOf l with
                 | Some p => legLength p q
                 | None => 0
                 end.
Proof.
  destruct l as [|p l] using rev_ind.
  - unfold pathLength. simpl. lra.
  - rewrite lastOf_snoc. unfold pathLength.
    rewrite legs_snoc, sum_snoc. reflexivity.
Qed.

Lemma legs_nonneg (ps : list Point) : Forall (fun d => 0 <= d) (legs ps).
Proof.
  induction ps as [|p ps IH]; [constructor|].
  destruct ps as [|q ps]; [constructor|].
  change (legs (p :: q :: ps)) with (legLength p q :: legs (q :: ps)).
  constructor; [apply haversine_nonneg | exact IH].
Qed.

(** ** What each handler does to each cell *)

Lemma appendPoint_points (p : Point) (s : State) :
  points (appendPoint p s) = points s ++ [p].
Proof. reflexivity. Qed.

Lemma appendPoint_distance (p : Point) (s : State) :
  distance (appendPoint p s) =
  distance s + match lastOf (points s) with
               | Some l => legLength l p
               | None => 0
               end.
Proof.
  unfold appendPoint.
  destruct (lastOf (points s)) as [l|];
    [destruct (climbs p l)|]; destruct (tops p (maxAltitude s));
    simpl; unfold legLength; lra.
Qed.

Lemma appendPoint_elevationGain (p : Point) (s : State) :
  elevationGain (appendPoint p s) =
  match lastOf (points s) with
  | Some l =>
      if climbs p l
      then elevationGain s + (JS.toNumber (alt p) - JS.toNumber (alt l))
      else elevationGain s
  | None => elevationGain s
  end.
Proof.
  unfold appendPoint.
  destruct (lastOf (points s)) as [l|];
    [destruct (climbs p l)|]; destruct (tops p (maxAltitude s));
    reflexivity.
Qed.

Lemma appendPoint_maxAltitude (p : Point) (s : State) :
  maxAltitude (appendPoint p s) =
  if tops p (maxAltitude s) then JS.toNumber (alt p) else maxAltitude s.
Proof.
  unfold appendPoint.
  destruct (lastOf (points s)) as [l|];
    [destruct (climbs p l)|]; destruct (tops p (maxAltitude s));
    reflexivity.
Qed.

Lemma appendPoint_rest (p : Point) (s : State) :
  status (appendPoint p s) = status s /\
  elapsedTime (appendPoint p s) = elapsedTime s /\
  currentSpeed (appendPoint p s) = currentSpeed s /\
  avgSpeed (appendPoint p s) = avgSpeed s /\
  gpsSignal (appendPoint p s) = gpsSignal s /\
  calories (appendPoint p s) = calories s /\
  screenIndex (appendPoint p s) = screenIndex s.
Proof.
  unfold appendPoint.
  destruct (lastOf (points s)) as [l|];
    [destruct (climbs p l)|]; destruct (tops p (maxAltitude s));
    repeat split.
Qed.

Lemma onPosition_points (position : Position) (s : State) :
  points (onPosition position s) = points s ++ [newPointOf position].
Proof.
  unfold onPosition.
  destruct (coords_speed (coords position)); reflexivity.
Qed.

Lemma onPosition_distance (position : Position) (s : State) :
  distance (onPosition position s) =
  distance s + match lastOf (points s) with
               | Some l => legLength l (newPointOf position)
               | None => 0
               end.
Proof.
  unfold onPosition.
  destruct (coords_speed (coords position));
    cbn [setCurrentSpeed distance];
    rewrite appendPoint_distance; reflexivity.
Qed.

Lemma onPosition_elevationGain (position : Position) (s : State) :
  elevationGain (onPosition position s) =
  match lastOf (points s) with
  | Some l =>
      if climbs (newPointOf position) l
      then elevationGain s +
           (JS.toNumber (altitude (coords position)) - JS.toNumber (alt l))
      else elevationGain s
  | None => elevationGain s
  end.
Proof.
  unfold onPosition.
  destruct (coords_speed (coords position));
    cbn [setCurrentSpeed elevationGain];
    rewrite appendPoint_elevationGain; reflexivity.
Qed.

Lemma onPosition_maxAltitude (position : Position) (s : State) :
  maxAltitude (onPosition position s) =
  if tops (newPointOf position) (maxAltitude s)
  then JS.toNumber (altitude (coords position))
  else maxAltitude s.
Proof.
  unfold onPosition.
  destruct (coords_speed (coords position));
    cbn [setCurrentSpeed maxAltitude];
    rewrite appendPoint_maxAltitude; reflexivity.
Qed.

Lemma onPosition_gpsSignal (position : Position) (s : State) :
  gpsSignal (onPosition position s) = classify (accuracy (coords position)).
Proof.
  unfold onPosition.
  destruct (coords_speed (coords position));
    cbn [setCurrentSpeed gpsSignal];
    apply (appendPoint_rest (newPointOf position)
             (setGpsSignal (classify (accuracy (coords position))) s)).
Qed.

Lemma onPosition_currentSpeed (position : Position) (s : State) :
  currentSpeed (onPosition position s) =
  match coords_speed (coords position) with
  | Some v => v * 3.6
  | None => currentSpeed s
  end.
Proof.
  unfold onPosition.
  destruct (coords_speed (coords position)); [reflexivity|].
  apply (appendPoint_rest (newPointOf position)
           (setGpsSignal (classify (accuracy (coords position))) s)).
Qed.

Lemma onPosition_rest (position : Position) (s : State) :
  status (onPosition position s) = status s /\
  elapsedTime (onPosition position s) = elapsedTime s /\
  avgSpeed (onPosition position s) = avgSpeed s /\
  calories (onPosition position s) = calories s /\
  screenIndex (onPosition position s) = screenIndex s.
Proof.
  unfold onPosition.
  pose proof (appendPoint_rest (newPointOf position)
                (setGpsSignal (classify (accuracy (coords position))) s))
    as (H1 & H2 & _ & H4 & _ & H6 & H7).
  destruct (coords_speed (coords position));
    cbn [setCurrentSpeed status elapsedTime avgSpeed calories screenIndex];
    repeat split; assumption.
Qed.

(** The effect writes [avgSpeed] and nothing else. *)
Lemma avgSpeedEffect_rest (s : State) :
  status (avgSpeedEffect s) = status s /\
  points (avgSpeedEffect s) = points s /\
  distance (avgSpeedEffect s) = distance s /\
  elapsedTime (avgSpeedEffect s) = elapsedTime s /\
  elevationGain (avgSpeedEffect s) = elevationGain s /\
  maxAltitude (avgSpeedEffect s) = maxAltitude s /\
  currentSpeed (avgSpeedEffect s) = currentSpeed s /\
  gpsSignal (avgSpeedEffect s) = gpsSignal s /\
  calories (avgSpeedEffect s) = calories s /\
  screenIndex (avgSpeedEffect s) = screenIndex s.
Proof.
  unfold avgSpeedEffect. destruct (0 <? elapsedTime s)%Z; repeat split.
Qed.

(** No dependency changed: the effect does not run. *)
Lemma avgSpeedDeps_same (s t : State) :
  distance s = distance t -> elapsedTime s = elapsedTime t ->
  avgSpeedDeps s t = false.
Proof.
  intros Hd He. unfold avgSpeedDeps.
  rewrite Hd, He, JSFacts.eqb_refl, Z.eqb_refl. reflexivity.
Qed.

(** After the effect phase every cell but [avgSpeed] is as the handler left
    it. *)
Lemma step_rest (ev : Event) (s : State) :
  status (step ev s) = status (handle ev s) /\
  points (step ev s) = points (handle ev s) /\
  distance (step ev s) = distance (handle ev s) /\
  elapsedTime (step ev s) = elapsedTime (handle ev s) /\
  elevationGain (step ev s) = elevationGain (handle ev s) /\
  maxAltitude (step ev s) = maxAltitude (handle ev s) /\
  currentSpeed (step ev s) = currentSpeed (handle ev s) /\
  gpsSignal (step ev s) = gpsSignal (handle ev s) /\
  calories (step ev s) = calories (handle ev s) /\
  screenIndex (step ev s) = screenIndex (handle ev s).
Proof.
  unfold step. destruct (avgSpeedDeps s (handle ev s)).
  - apply avgSpeedEffect_rest.
  - repeat split.
Qed.

Lemma run_snoc (evs : list Event) (ev : Event) (s : State) :
  run (evs ++ [ev]) s = step ev (run evs s).
Proof. unfold run. now rewrite fold_left_app. Qed.

Lemma run_cons (evs : list Event) (ev : Event) (s : State) :
  run (ev :: evs) s = run evs (step ev s).
Proof. reflexivity. Qed.

(** A property of the initial state that every step keeps holds after
    every sequence of events. *)
Lemma run_invariant (P : State -> Prop) :
  P initial -> (forall ev s, P s -> P (step ev s)) ->
  forall evs, P (run evs initial).
Proof.
  intros H0 Hstep evs. induction evs as [|ev evs IH] using rev_ind.
  - exact H0.
  - rewrite run_snoc. now apply Hstep.
Qed.

(** ** Cumulative distance *)

(** What a handler does to the point sequence and the distance. *)
Lemma onDragEnd_rest (x : R) (s : State) :
  status (onDragEnd x s) = status s /\
  points (onDragEnd x s) = points s /\
  distance (onDragEnd x s) = distance s /\
  elapsedTime (onDragEnd x s) = elapsedTime s /\
  elevationGain (onDragEnd x s) = elevationGain s /\
  maxAltitude (onDragEnd x s) = maxAltitude s /\
  currentSpeed (onDragEnd x s) = currentSpeed s /\
  avgSpeed (onDragEnd x s) = avgSpeed s /\
  gpsSignal (onDragEnd x s) = gpsSignal s /\
  calories (onDragEnd x s) = calories s.
Proof.
  unfold onDragEnd.
  destruct (JS.ltb x (-50)); destruct (JS.ltb 50 x); repeat split.
Qed.

Lemma handle_keeps_path (ev : Event) (s : State) :
  distance s = pathLength (points s) ->
  distance (handle ev s) = pathLength (points (handle ev s)).
Proof.
  intros Inv. destruct ev as [b | position | | | x]; simpl.
  - destruct (rendered (status s) b); [|exact Inv].
    destruct b; simpl; try exact Inv.
    unfold pathLength; reflexivity.
  - destruct (Status_eqb (status s) active); [|exact Inv].
    rewrite onPosition_distance, onPosition_points, pathLength_snoc, Inv.
    reflexivity.
  - destruct (Status_eqb (status s) active); exact Inv.
  - destruct (Status_eqb (status s) active); exact Inv.
  - destruct (negb (Status_eqb (status s) summary)); [|exact Inv].
    destruct (onDragEnd_rest x s) as (_ & Hp & Hd & _).
    now rewrite Hp, Hd.
Qed.

Lemma step_keeps_path (ev : Event) (s : State) :
  distance s = pathLength (points s) ->
  distance (step ev s) = pathLength (points (step ev s)).
Proof.
  intros Inv. destruct (step_rest ev s) as (_ & Hp & Hd & _).
  rewrite Hp, Hd. now apply handle_keeps_path.
Qed.

Lemma step_Fix_points (position : Position) (s : State) :
  points (step (Fix position) s) =
  if Status_eqb (status s) active
  then points s ++ [newPointOf position]
  else points s.
Proof.
  destruct (step_rest (Fix position) s) as (_ & Hp & _). rewrite Hp. simpl.
  destruct (Status_eqb (status s) active); [|reflexivity].
  apply onPosition_points.
Qed.

Lemma step_Fix_distance (position : Position) (s : State) :
  distance s <= distance (step (Fix position) s).
Proof.
  destruct (step_rest (Fix position) s) as (_ & _ & Hd & _). rewrite Hd.
  simpl. destruct (Status_eqb (status s) active); [|lra].
  rewrite onPosition_distance.
  destruct (lastOf (points s)) as [l|]; [|lra].
  pose proof (haversine_nonneg (lat l) (lng l) (lat (newPointOf position))
                (lng (newPointOf position))).
  unfold legLength. lra.
Qed.

Lemma step_Fix_status (position : Position) (s : State) :
  status (step (Fix position) s) = status s.
Proof.
  destruct (step_rest (Fix position) s) as (Hs & _). rewrite Hs. simpl.
  destruct (Status_eqb (status s) active); [|reflexivity].
  apply onPosition_rest.
Qed.

(** The status after a click is the one the table of transitions gives. *)
Lemma step_Click_status (b : Button) (s : State) :
  status (step (Click b) s) =
  match transition (status s) b with
  | Some st => st
  | None => status s
  end.
Proof.
  destruct (step_rest (Click b) s) as (Hs & _). rewrite Hs. simpl.
  destruct (status s) eqn:E, b; simpl; try rewrite E; reflexivity.
Qed.

(** The fixes delivered to an active session are recorded in arrival
    order. *)
Lemma run_fixes_points (positions : list Position) (s : State) :
  status s = active ->
  status (run (map Fix positions) s) = active /\
  points (run (map Fix positions) s) = points s ++ map newPointOf positions.
Proof.
  revert s. induction positions as [|position positions IH]; intros s Hs.
  - simpl. now rewrite app_nil_r.
  - simpl map. rewrite run_cons.
    destruct (IH (step (Fix position) s)) as [IH1 IH2].
    { now rewrite step_Fix_status. }
    split; [exact IH1|].
    rewrite IH2, step_Fix_points, Hs. simpl.
    now rewrite <- app_assoc.
Qed.

Lemma run_keeps_path (evs : list Event) (s : State) :
  distance s = pathLength (points s) ->
  distance (run evs s) = pathLength (points (run evs s)).
Proof.
  revert s. induction evs as [|ev evs IH]; intros s Inv; [exact Inv|].
  rewrite run_cons. apply IH. now apply step_keeps_path.
Qed.

(** ** A leg between nearly antipodal fixes *)

(** C1. The code does not keep the distance in range for every pair of
    fixes.  From (0.08, 0) to (-0.08, 180) the doubles are
    [Math.sin(dLat/2) = -0.0013962629479142763],
    [Math.cos(lat * Math.PI / 180) = 0.9999990252244151] at both ends and
    [Math.sin(dLon/2) = 1]; their sum [a] is 1.0000000000000002, above 1,
    so [1 - a] is negative and [Math.sqrt(1-a)] is not a number.  The
    distance that [haversine] returns, and every cumulative distance that
    it is added to, is then not a number either. *)
Theorem C1_antipodal_leg_is_not_a_number :
  let a := haversine_a64 (- 0.0013962629479142763) 0.9999990252244151
             0.9999990252244151 1 in
  PrimFloat.eqb a 1.0000000000000002 = true /\
  PrimFloat.ltb 1 a = true /\
  PrimFloat.ltb (1 - a) 0 = true /\
  PrimFloat.is_nan (haversine_cosHalf64 a) = true.
Proof.
  vm_compute. repeat split.
Qed.

(** An event whose handler leaves distance and elapsed time alone ends
    where its handler ends. *)
Lemma step_quiet (ev : Event) (s : State) :
  distance (handle ev s) = distance s ->
  elapsedTime (handle ev s) = elapsedTime s ->
  step ev s = handle ev s.
Proof.
  intros Hd He. unfold step.
  now rewrite (avgSpeedDeps_same s (handle ev s)) by (symmetry; assumption).
Qed.

Lemma handle_Fix_active (position : Position) (s : State) :
  status s = active -> handle (Fix position) s = onPosition position s.
Proof. intros H. unfold handle. now rewrite H. Qed.

(** ** Elevation gain *)

Lemma climbs_spec (p l : Point) :
  climbs p l = true <->
  exists a b, alt l = Some a /\ alt p = Some b /\ a <> 0 /\ b <> 0 /\ a < b.
Proof.
  unfold climbs. rewrite !andb_true_iff, !JSFacts.truthy_opt_true.
  rewrite JSFacts.ltb_true. split.
  - intros [[(b & Eb & Hb) (a & Ea & Ha)] Hlt].
    rewrite Ea, Eb in Hlt. simpl in Hlt. now exists a, b.
  - intros (a & b & Ea & Eb & Ha & Hb & Hlt). rewrite Ea, Eb. simpl.
    repeat split; eauto.
Qed.

Lemma climbs_gain (p l : Point) :
  climbs p l = true -> 0 < JS.toNumber (alt p) - JS.toNumber (alt l).
Proof.
  intros H. apply climbs_spec in H as (a & b & Ea & Eb & _ & _ & Hlt).
  rewrite Ea, Eb. simpl. lra.
Qed.

Lemma onPosition_gain_mono (position : Position) (s : State) :
  elevationGain s <= elevationGain (onPosition position s).
Proof.
  rewrite onPosition_elevationGain.
  destruct (lastOf (points s)) as [l|]; [|lra].
  destruct (climbs (newPointOf position) l) eqn:E; [|lra].
  apply climbs_gain in E. simpl in E. lra.
Qed.

Lemma step_Fix_gain_mono (position : Position) (s : State) :
  elevationGain s <= elevationGain (step (Fix position) s).
Proof.
  destruct (step_rest (Fix position) s) as (_ & _ & _ & _ & Hg & _).
  rewrite Hg. simpl. destruct (Status_eqb (status s) active); [|lra].
  apply onPosition_gain_mono.
Qed.

Lemma run_start_fix_status (position : Position) :
  status (run [Click PlayButton; Fix position] initial) = active.
Proof.
  rewrite !run_cons. simpl run.
  now rewrite step_Fix_status, step_Click_status.
Qed.

Lemma run_start_fix_points (position : Position) :
  points (run [Click PlayButton; Fix position] initial) =
  [newPointOf position].
Proof.
  rewrite run_cons.
  destruct (run_fixes_points [position] (step (Click PlayButton) initial))
    as [_ Hp]; [now rewrite step_Click_status|].
  simpl map in Hp. rewrite Hp.
  destruct (step_rest (Click PlayButton) initial) as (_ & Hq & _).
  now rewrite Hq.
Qed.

(** C2, as stated, fails: a fix at 10 m that follows a fix at sea level
    (altitude 0, present) leaves the elevation gain where it was, although
    both points carry an altitude and the new one is higher. *)
Lemma C2_counterexample :
  let s := run [Click PlayButton; Fix seaLevelFix] initial in
  status s = active /\
  lastOf (points s) = Some (newPointOf seaLevelFix) /\
  alt (newPointOf seaLevelFix) = Some 0 /\
  altitude (coords hillFix) = Some 10 /\
  0 < 10 /\
  elevationGain (step (Fix hillFix) s) = elevationGain s /\
  elevationGain (step (Fix hillFix) s) <> elevationGain s + (10 - 0).
Proof.
  intros s.
  assert (Hst : status s = active) by apply run_start_fix_status.
  assert (Hpts : points s = [newPointOf seaLevelFix])
    by apply run_start_fix_points.
  assert (Hgain : elevationGain (step (Fix hillFix) s) = elevationGain s).
  { destruct (step_rest (Fix hillFix) s) as (_ & _ & _ & _ & Hg & _).
    rewrite Hg, (handle_Fix_active hillFix s Hst).
    rewrite onPosition_elevationGain, Hpts.
    change (lastOf [newPointOf seaLevelFix])
      with (Some (newPointOf seaLevelFix)).
    unfold climbs. simpl. js_compare. reflexivity. }
  split; [exact Hst|]. split; [now rewrite Hpts|].
  split; [reflexivity|]. split; [reflexivity|]. split; [lra|].
  split; [exact Hgain|]. rewrite Hgain. lra.
Qed.

(** C2, amended. A fix raises the elevation gain by exactly the altitude
    delta when the previous and the new point both carry a non-zero
    altitude and the new one is strictly higher.  In every other case
    (no previous point, an altitude absent or equal to zero on either
    side, a new altitude equal or lower) the gain is unchanged.  So the
    gain never decreases when a fix is ingested. *)
Theorem C2_elevation_gain_amended :
  forall (position : Position) (s : State),
    let s' := onPosition position s in
    let new := altitude (coords position) in
    ((exists l a b,
        lastOf (points s) = Some l /\ alt l = Some a /\ new = Some b /\
        a <> 0 /\ b <> 0 /\ a < b /\
        elevationGain s' = elevationGain s + (b - a))
     \/
     ((lastOf (points s) = None \/
       new = None \/ new = Some 0 \/
       exists l, lastOf (points s) = Some l /\
         (alt l = None \/ alt l = Some 0 \/
          exists a b, alt l = Some a /\ new = Some b /\ b <= a)) /\
      elevationGain s' = elevationGain s)) /\
    elevationGain s <= elevationGain s' /\
    elevationGain s <= elevationGain (step (Fix position) s).
Proof.
  intros position s. cbv zeta.
  split; [|split; [apply onPosition_gain_mono | apply step_Fix_gain_mono]].
  rewrite onPosition_elevationGain.
  destruct (lastOf (points s)) as [l|]; [|right; split; auto].
  destruct (climbs (newPointOf position) l) eqn:E.
  - left. apply climbs_spec in E as (a & b & Ea & Eb & Ha & Hb & Hlt).
    simpl in Eb. exists l, a, b. rewrite Ea, Eb. simpl.
    repeat split; auto.
  - right. split; [|reflexivity].
    unfold climbs in E. simpl in E.
    apply andb_false_iff in E as [E | E];
      [apply andb_false_iff in E as [E | E]|].
    + apply JSFacts.truthy_opt_false in E as [E | E]; auto.
    + apply JSFacts.truthy_opt_false in E as [E | E];
        right; right; right; exists l; auto.
    + apply JSFacts.ltb_false in E.
      destruct (altitude (coords position)) as [b|] eqn:Eb; [|auto].
      destruct (alt l) as [a|] eqn:Ea;
        right; right; right; exists l; split; auto.
      right. right. exists a, b. simpl in E. auto.
Qed.

(** ** Signal quality *)

Lemma classify_spec (acc : R) :
  (acc < 20 -> classify acc = good) /\
  (20 <= acc < 50 -> classify acc = fair) /\
  (50 <= acc -> classify acc = poor).
Proof.
  unfold classify. repeat split; intros; js_compare; reflexivity.
Qed.

Lemma step_Fix_gpsSignal (position : Position) (s : State) :
  status s = active ->
  gpsSignal (step (Fix position) s) = classify (accuracy (coords position)).
Proof.
  intros Hs.
  destruct (step_rest (Fix position) s) as (_ & _ & _ & _ & _ & _ & _ & Hg & _).
  rewrite Hg, (handle_Fix_active position s Hs).
  apply onPosition_gpsSignal.
Qed.

Lemma step_FixError (s : State) :
  step FixError s =
  if Status_eqb (status s) active then setGpsSignal none s else s.
Proof.
  rewrite step_quiet; simpl;
    destruct (Status_eqb (status s) active); reflexivity.
Qed.

(** C9. A fix delivered to an active session sets the signal quality from
    its accuracy: good below 20, fair from 20 up to 50 (excluded), poor
    from 50 on.  A failure to acquire a fix in an active session sets the
    quality to none; every other cell of the state, the status included,
    is as before. *)
Theorem C9_signal_quality :
  forall (position : Position) (s : State),
    status s = active ->
    let acc := accuracy (coords position) in
    let s' := step FixError s in
    (acc < 20 -> gpsSignal (step (Fix position) s) = good) /\
    (20 <= acc < 50 -> gpsSignal (step (Fix position) s) = fair) /\
    (50 <= acc -> gpsSignal (step (Fix position) s) = poor) /\
    gpsSignal s' = none /\
    status s' = active /\
    points s' = points s /\
    distance s' = distance s /\
    elapsedTime s' = elapsedTime s /\
    elevationGain s' = elevationGain s /\
    maxAltitude s' = maxAltitude s /\
    currentSpeed s' = currentSpeed s /\
    avgSpeed s' = avgSpeed s /\
    calories s' = calories s /\
    screenIndex s' = screenIndex s.
Proof.
  intros position s Hs. cbv zeta.
  rewrite step_FixError, Hs, (step_Fix_gpsSignal position s Hs).
  destruct (classify_spec (accuracy (coords position))) as (Hg & Hf & Hp).
  simpl. repeat split; auto.
Qed.

(** C9 on the fixes of accuracy 15, 35 and 80 and on a failure, in a
    session that was just started. *)
Lemma C9_signal_quality_witness :
  let s := step (Click PlayButton) initial in
  gpsSignal (step (Fix (fixOfAccuracy 15)) s) = good /\
  gpsSignal (step (Fix (fixOfAccuracy 35)) s) = fair /\
  gpsSignal (step (Fix (fixOfAccuracy 80)) s) = poor /\
  gpsSignal (step FixError s) = none /\
  status (step FixError s) = active.
Proof.
  intros s.
  assert (Hs : status s = active) by (unfold s; now rewrite step_Click_status).
  split; [|split; [|split; [|split]]].
  - apply (C9_signal_quality (fixOfAccuracy 15) s Hs). simpl. lra.
  - apply (C9_signal_quality (fixOfAccuracy 35) s Hs). simpl. lra.
  - apply (C9_signal_quality (fixOfAccuracy 80) s Hs). simpl. lra.
  - apply (C9_signal_quality (fixOfAccuracy 15) s Hs).
  - apply (C9_signal_quality (fixOfAccuracy 15) s Hs).
Defined.

(** ** Calories *)

Lemma caloriesAt_0 : caloriesAt 0 = 0%Z.
Proof. vm_compute. reflexivity. Qed.

(** One hour of walking burns 420 kcal. *)
Lemma caloriesAt_hour : caloriesAt 3600 = 420%Z.
Proof. vm_compute. reflexivity. Qed.

(** Thirty seconds are 3.5 kcal, shown as 4: here the product of the
    doubles is the exact half and the tie goes up. *)
Lemma caloriesAt_tie_up : caloriesAt 30 = 4%Z.
Proof. vm_compute. reflexivity. Qed.

(** After 1950 seconds the exact value is 227.5 kcal, but the product of
    the doubles is 227.49999999999997, shown as 227. *)
Lemma caloriesAt_tie_down : caloriesAt 1950 = 227%Z.
Proof. vm_compute. reflexivity. Qed.

(** The test of [allIn] holds of every integer of the range. *)
Lemma allIn_spec (P : Z -> bool) (k : nat) (lo : Z) :
  allIn P k lo = true ->
  forall t : Z, (lo <= t < lo + 2 ^ Z.of_nat k)%Z -> P t = true.
Proof.
  revert lo. induction k as [|k IH]; intros lo H t Ht.
  - simpl in *. replace t with lo by lia. exact H.
  - simpl allIn in H. apply andb_true_iff in H as [H1 H2].
    rewrite Nat2Z.inj_succ, Z.pow_succ_r in Ht by lia.
    destruct (Z_lt_ge_dec t (lo + 2 ^ Z.of_nat k)) as [Hlt | Hge].
    + apply (IH lo H1). lia.
    + apply (IH _ H2). lia.
Qed.

(** Up to 262144 seconds (nearly 73 hours) the calories are an integer
    nearest to [6 * 70 * t / 3600]: checked on each of them. *)
Lemma caloriesAt_nearest (t : Z) :
  (0 <= t < 262144)%Z ->
  (Z.abs (3600 * caloriesAt t - 6 * 70 * t) <= 1800)%Z.
Proof.
  intros Ht.
  assert (H : allIn caloriesNearest 18 0 = true) by (vm_compute; reflexivity).
  apply Z.leb_le. apply (allIn_spec caloriesNearest 18 0 H t).
  change (2 ^ Z.of_nat 18)%Z with 262144%Z. lia.
Qed.

(** Integers nearest to a growing quantity do not decrease. *)
Lemma caloriesAt_mono (t u : Z) :
  (0 <= t <= u)%Z -> (u < 262144)%Z -> (caloriesAt t <= caloriesAt u)%Z.
Proof.
  intros Htu Hu.
  destruct (Z.eq_dec t u) as [-> | Hne]; [lia|].
  assert (Ht' : (Z.abs (3600 * caloriesAt t - 6 * 70 * t) <= 1800)%Z)
    by (apply caloriesAt_nearest; lia).
  assert (Hu' : (Z.abs (3600 * caloriesAt u - 6 * 70 * u) <= 1800)%Z)
    by (apply caloriesAt_nearest; lia).
  lia.
Qed.

(** They are the exactly rounded value, or one less at an exact half. *)
Lemma caloriesAt_exact_or_tie (t : Z) :
  (0 <= t < 262144)%Z ->
  caloriesAt t = ((6 * 70 * t + 1800) / 3600)%Z \/
  (caloriesAt t = ((6 * 70 * t + 1800) / 3600 - 1)%Z /\
   ((6 * 70 * t + 1800) mod 3600 = 0)%Z).
Proof.
  intros Ht. pose proof (caloriesAt_nearest t Ht) as H.
  Z.to_euclidean_division_equations. lia.
Qed.

Lemma onTick_cells (s : State) :
  elapsedTime (onTick s) = (elapsedTime s + 1)%Z /\
  calories (onTick s) = caloriesAt (elapsedTime s + 1) /\
  distance (onTick s) = distance s.
Proof. repeat split. Qed.

Lemma handle_keeps_calories (ev : Event) (s : State) :
  calories s = caloriesAt (elapsedTime s) /\ (0 <= elapsedTime s)%Z ->
  calories (handle ev s) = caloriesAt (elapsedTime (handle ev s)) /\
  (0 <= elapsedTime (handle ev s))%Z.
Proof.
  intros [Inv Pos]. destruct ev as [b | position | | | x]; simpl.
  - destruct (rendered (status s) b); [|now split].
    destruct b; simpl;
      first [ now split | split; [now rewrite caloriesAt_0 | lia] ].
  - destruct (Status_eqb (status s) active); [|now split].
    destruct (onPosition_rest position s) as (_ & He & _ & Hc & _).
    rewrite He, Hc. now split.
  - destruct (Status_eqb (status s) active); now split.
  - destruct (Status_eqb (status s) active); [|now split].
    simpl. split; [reflexivity | lia].
  - destruct (negb (Status_eqb (status s) summary)); [|now split].
    destruct (onDragEnd_rest x s) as (_ & _ & _ & He & _ & _ & _ & _ & _ & Hc).
    rewrite He, Hc. now split.
Qed.

Lemma step_keeps_calories (ev : Event) (s : State) :
  calories s = caloriesAt (elapsedTime s) /\ (0 <= elapsedTime s)%Z ->
  calories (step ev s) = caloriesAt (elapsedTime (step ev s)) /\
  (0 <= elapsedTime (step ev s))%Z.
Proof.
  intros Inv.
  destruct (step_rest ev s) as (_ & _ & _ & He & _ & _ & _ & _ & Hc & _).
  rewrite He, Hc. now apply handle_keeps_calories.
Qed.

Lemma step_Tick_elapsedTime (s : State) :
  elapsedTime (step Tick s) =
  if Status_eqb (status s) active
  then (elapsedTime s + 1)%Z
  else elapsedTime s.
Proof.
  destruct (step_rest Tick s) as (_ & _ & _ & He & _). rewrite He. simpl.
  destruct (Status_eqb (status s) active); reflexivity.
Qed.

Lemma run_repeat_Tick (n : nat) (s : State) :
  status s = active ->
  status (run (repeat Tick n) s) = active /\
  elapsedTime (run (repeat Tick n) s) = (elapsedTime s + Z.of_nat n)%Z.
Proof.
  revert s. induction n as [|n IH]; intros s Hs.
  - simpl. split; [exact Hs | lia].
  - simpl repeat. rewrite run_cons.
    assert (Hst : status (step Tick s) = active).
    { destruct (step_rest Tick s) as (Hq & _). rewrite Hq.
      unfold handle. rewrite Hs. exact Hs. }
    destruct (IH (step Tick s) Hst) as [IH1 IH2].
    split; [exact IH1|].
    rewrite IH2, step_Tick_elapsedTime, Hs. simpl Status_eqb. cbv iota. lia.
Qed.

Lemma run_keeps_calories (evs : list Event) :
  calories (run evs initial) = caloriesAt (elapsedTime (run evs initial)) /\
  (0 <= elapsedTime (run evs initial))%Z.
Proof.
  apply (run_invariant
           (fun s => calories s = caloriesAt (elapsedTime s) /\
                     (0 <= elapsedTime s)%Z)).
  - cbn [initial elapsedTime calories].
    split; [now rewrite caloriesAt_0 | lia].
  - intros ev s. apply step_keeps_calories.
Qed.




(** ** The session state machine *)

Lemma step_same (ev : Event) (s : State) : handle ev s = s -> step ev s = s.
Proof.
  intros H. rewrite step_quiet; rewrite H; reflexivity.
Qed.

(** A click outside the table changes nothing. *)
Lemma step_Click_noop (b : Button) (s : State) :
  transition (status s) b = None -> step (Click b) s = s.
Proof.
  intros H. apply step_same. unfold handle.
  destruct (status s) eqn:E, b; simpl in *; try reflexivity; discriminate.
Qed.

(** The status after any event. *)
Lemma step_status (ev : Event) (s : State) :
  status (step ev s) =
  match ev with
  | Click b =>
      match transition (status s) b with
      | Some st => st
      | None => status s
      end
  | _ => status s
  end.
Proof.
  destruct ev as [b | position | | | x].
  - apply step_Click_status.
  - apply step_Fix_status.
  - rewrite step_FixError. now destruct (Status_eqb (status s) active).
  - destruct (step_rest Tick s) as (Hs & _). rewrite Hs. simpl.
    now destruct (Status_eqb (status s) active).
  - destruct (step_rest (DragEnd x) s) as (Hs & _). rewrite Hs. simpl.
    destruct (negb (Status_eqb (status s) summary)); [|reflexivity].
    apply onDragEnd_rest.
Qed.

(** Start, pause and stop write the status and nothing else. *)
Lemma step_Click_setStatus (b : Button) (s : State) (st : Status) :
  b <> ResetButton -> transition (status s) b = Some st ->
  step (Click b) s = setStatus st s.
Proof.
  intros Hb H. rewrite step_quiet.
  - unfold handle.
    destruct (status s) eqn:E, b; simpl in *;
      try discriminate; try contradiction; now inversion H.
  - unfold handle. destruct (rendered (status s) b); [|reflexivity].
    destruct b; try reflexivity. contradiction.
  - unfold handle. destruct (rendered (status s) b); [|reflexivity].
    destruct b; try reflexivity. contradiction.
Qed.

(** Reset in the summary is the reset handler: the effect that follows
    finds no elapsed time and writes nothing. *)
Lemma step_Reset (s : State) :
  status s = summary -> step (Click ResetButton) s = handleReset s.
Proof.
  intros H. unfold step, handle. rewrite H. simpl rendered. cbv iota.
  destruct (avgSpeedDeps s (onClick ResetButton s)); reflexivity.
Qed.

(** C6, as stated, fails: the claim lists a transition from [paused] back
    to [active]; in a session that was started and paused no event at all
    leads to [active]. *)
Lemma C6_counterexample :
  status (run pausedSession initial) = paused /\
  forall ev : Event, status (step ev (run pausedSession initial)) <> active.
Proof.
  assert (H : status (run pausedSession initial) = paused).
  { unfold pausedSession. rewrite !run_cons. simpl run.
    now rewrite !step_Click_status. }
  split; [exact H|].
  intros ev. rewrite step_status, H.
  destruct ev as [b | | | | ]; try discriminate.
  destruct b; discriminate.
Qed.

(** C6, amended. A click moves the status along exactly these
    transitions: idle to active (start), active to paused (pause), active
    or paused to summary (stop), summary to idle (reset); there is no
    transition from paused back to active.  Start, pause and stop write
    the status only.  Every other click leaves the whole state unchanged,
    and no other event changes the status. *)
Theorem C6_transitions_amended :
  forall (s : State) (b : Button) (ev : Event),
    match transition (status s) b with
    | Some st =>
        status (step (Click b) s) = st /\
        match b with
        | ResetButton => True
        | _ => step (Click b) s = setStatus st s
        end
    | None => step (Click b) s = s
    end /\
    match ev with
    | Click _ => True
    | _ => status (step ev s) = status s
    end /\
    match status s with
    | idle => status (step ev s) = idle \/ status (step ev s) = active
    | active =>
        status (step ev s) = active \/ status (step ev s) = paused \/
        status (step ev s) = summary
    | paused => status (step ev s) = paused \/ status (step ev s) = summary
    | summary => status (step ev s) = summary \/ status (step ev s) = idle
    end.
Proof.
  intros s b ev. split; [|split].
  - destruct (transition (status s) b) as [st|] eqn:E.
    + split; [now rewrite step_Click_status, E|].
      destruct b; try exact I; apply step_Click_setStatus;
        (discriminate || assumption).
    + now apply step_Click_noop.
  - destruct ev; try exact I; now rewrite step_status.
  - rewrite step_status.
    destruct (status s) eqn:E, ev as [[] | | | | ]; simpl; auto.
Qed.

(** ** A hike, stopped and reset *)

(** Evaluate one event on an explicit state: the handler by computation,
    the comparisons of reals by [lra]. *)
Ltac run_event :=
  unfold step, handle, onPosition, appendPoint, onTick, avgSpeedEffect,
    avgSpeedDeps, climbs, tops, classify, lastOf;
  repeat (cbn -[haversine caloriesAt JS.ltb JS.eqb JS.truthy IZR
                Rplus Rminus Rmult Rdiv Ropp Rinv];
          js_compare);
  try reflexivity.

Lemma hike_started :
  step (Click PlayButton) initial = mkState active [] 0 0 0 0 0 0 none 0 0.
Proof. run_event. Qed.

Lemma hike_first_fix :
  step (Fix trailheadFix) (mkState active [] 0 0 0 0 0 0 none 0 0) =
  mkState active [newPointOf trailheadFix] 0 0 0 100 (1 * 3.6) 0 good 0 0.
Proof. run_event. Qed.

Lemma hike_first_second :
  step Tick
    (mkState active [newPointOf trailheadFix] 0 0 0 100 (1 * 3.6) 0 good 0 0) =
  mkState active [newPointOf trailheadFix] 0 1 0 100 (1 * 3.6)
    (0 / (1 / 3600)) good (caloriesAt 1) 0.
Proof. run_event. Qed.

Lemma hike_second_fix :
  step (Fix secondFix)
    (mkState active [newPointOf trailheadFix] 0 1 0 100 (1 * 3.6)
       (0 / (1 / 3600)) good (caloriesAt 1) 0) =
  mkState active [newPointOf trailheadFix; newPointOf secondFix]
    (0 + haversine 0 0 0 0.01) 1 (0 + (110 - 100)) 110 (1 * 3.6)
    ((0 + haversine 0 0 0 0.01) / (1 / 3600)) good (caloriesAt 1) 0.
Proof. pose proof haversine_equator_step. run_event. Qed.

Lemma hike_stopped :
  step (Click StopButton)
    (mkState active [newPointOf trailheadFix; newPointOf secondFix]
       (0 + haversine 0 0 0 0.01) 1 (0 + (110 - 100)) 110 (1 * 3.6)
       ((0 + haversine 0 0 0 0.01) / (1 / 3600)) good (caloriesAt 1) 0) =
  mkState summary [newPointOf trailheadFix; newPointOf secondFix]
    (0 + haversine 0 0 0 0.01) 1 (0 + (110 - 100)) 110 (1 * 3.6)
    ((0 + haversine 0 0 0 0.01) / (1 / 3600)) good (caloriesAt 1) 0.
Proof. run_event. Qed.

Lemma hike_reset :
  step (Click ResetButton)
    (mkState summary [newPointOf trailheadFix; newPointOf secondFix]
       (0 + haversine 0 0 0 0.01) 1 (0 + (110 - 100)) 110 (1 * 3.6)
       ((0 + haversine 0 0 0 0.01) / (1 / 3600)) good (caloriesAt 1) 0) =
  mkState idle [] 0 0 0 0 (1 * 3.6)
    ((0 + haversine 0 0 0 0.01) / (1 / 3600)) good 0 0.
Proof. apply step_Reset. reflexivity. Qed.

(** The state the summary shows at the end of the hike, and the state
    after its reset. *)
Lemma hike_summary_state :
  run [Click PlayButton; Fix trailheadFix; Tick; Fix secondFix;
       Click StopButton] initial =
  mkState summary [newPointOf trailheadFix; newPointOf secondFix]
    (0 + haversine 0 0 0 0.01) 1 (0 + (110 - 100)) 110 (1 * 3.6)
    ((0 + haversine 0 0 0 0.01) / (1 / 3600)) good (caloriesAt 1) 0.
Proof.
  unfold run. cbn [fold_left].
  now rewrite hike_started, hike_first_fix, hike_first_second,
    hike_second_fix, hike_stopped.
Qed.

Lemma hikeThenReset_state :
  run hikeThenReset initial =
  mkState idle [] 0 0 0 0 (1 * 3.6)
    ((0 + haversine 0 0 0 0.01) / (1 / 3600)) good 0 0.
Proof.
  unfold hikeThenReset.
  change [Click PlayButton; Fix trailheadFix; Tick; Fix secondFix;
          Click StopButton; Click ResetButton]
    with ([Click PlayButton; Fix trailheadFix; Tick; Fix secondFix;
           Click StopButton] ++ [Click ResetButton]).
  rewrite run_snoc, hike_summary_state. apply hike_reset.
Qed.

Lemma hikeThenEmptySession_state :
  run hikeThenEmptySession initial =
  mkState summary [] 0 0 0 0 (1 * 3.6)
    ((0 + haversine 0 0 0 0.01) / (1 / 3600)) good 0 0.
Proof.
  unfold hikeThenEmptySession, run. rewrite fold_left_app.
  fold (run hikeThenReset initial). rewrite hikeThenReset_state.
  cbn [fold_left].
  replace (step (Click PlayButton)
             (mkState idle [] 0 0 0 0 (1 * 3.6)
                ((0 + haversine 0 0 0 0.01) / (1 / 3600)) good 0 0))
    with (mkState active [] 0 0 0 0 (1 * 3.6)
            ((0 + haversine 0 0 0 0.01) / (1 / 3600)) good 0 0)
    by (symmetry; run_event).
  run_event.
Qed.

Lemma stale_avgSpeed_pos : 0 < (0 + haversine 0 0 0 0.01) / (1 / 3600).
Proof.
  pose proof haversine_equator_step as H.
  apply Rdiv_lt_0_compat; lra.
Qed.

(** ** Average speed *)

(** No handler writes [avgSpeed]; only the effect does. *)
Lemma handle_avgSpeed (ev : Event) (s : State) :
  avgSpeed (handle ev s) = avgSpeed s.
Proof.
  destruct ev as [b | position | | | x]; simpl.
  - destruct (rendered (status s) b); [|reflexivity]. now destruct b.
  - destruct (Status_eqb (status s) active); [|reflexivity].
    apply onPosition_rest.
  - now destruct (Status_eqb (status s) active).
  - now destruct (Status_eqb (status s) active).
  - destruct (negb (Status_eqb (status s) summary)); [|reflexivity].
    apply onDragEnd_rest.
Qed.

Lemma avgSpeedDeps_false (s t : State) :
  avgSpeedDeps s t = false ->
  distance s = distance t /\ elapsedTime s = elapsedTime t.
Proof.
  unfold avgSpeedDeps. intros H.
  apply orb_false_iff in H as [Hd He].
  apply negb_false_iff in Hd, He.
  apply JSFacts.eqb_true in Hd. apply Z.eqb_eq in He. now split.
Qed.

(** While time has elapsed, the average speed is the distance over the
    elapsed hours: this holds after every event. *)
Lemma step_keeps_avgSpeed (ev : Event) (s : State) :
  ((0 < elapsedTime s)%Z ->
   avgSpeed s = distance s / (IZR (elapsedTime s) / 3600)) ->
  (0 < elapsedTime (step ev s))%Z ->
  avgSpeed (step ev s) =
  distance (step ev s) / (IZR (elapsedTime (step ev s)) / 3600).
Proof.
  intros Inv. unfold step.
  destruct (avgSpeedDeps s (handle ev s)) eqn:D.
  - unfold avgSpeedEffect.
    destruct (0 <? elapsedTime (handle ev s))%Z eqn:E.
    + intros _. reflexivity.
    + intros H. apply Z.ltb_ge in E. lia.
  - apply avgSpeedDeps_false in D as [Hd He].
    rewrite handle_avgSpeed, <- Hd, <- He. exact Inv.
Qed.

Lemma avgSpeed_while_elapsed (evs : list Event) :
  let s := run evs initial in
  (0 < elapsedTime s)%Z ->
  avgSpeed s = distance s / (IZR (elapsedTime s) / 3600).
Proof.
  apply (run_invariant
           (fun s => (0 < elapsedTime s)%Z ->
                     avgSpeed s = distance s / (IZR (elapsedTime s) / 3600))).
  - simpl. lia.
  - intros ev s. apply step_keeps_avgSpeed.
Qed.

Lemma handle_elapsedTime_mono (ev : Event) (s : State) :
  ev <> Click ResetButton ->
  (elapsedTime s <= elapsedTime (handle ev s))%Z.
Proof.
  intros Hne. destruct ev as [b | position | | | x]; simpl.
  - destruct (rendered (status s) b); [|lia].
    destruct b; simpl; try lia. contradiction.
  - destruct (Status_eqb (status s) active); [|lia].
    destruct (onPosition_rest position s) as (_ & He & _). lia.
  - destruct (Status_eqb (status s) active); simpl; lia.
  - destruct (Status_eqb (status s) active); simpl; lia.
  - destruct (negb (Status_eqb (status s) summary)); [|lia].
    destruct (onDragEnd_rest x s) as (_ & _ & _ & He & _). lia.
Qed.

Lemma step_avgSpeed_no_time (ev : Event) (s : State) :
  elapsedTime (handle ev s) = 0%Z -> avgSpeed (step ev s) = avgSpeed s.
Proof.
  intros H. unfold step, avgSpeedEffect. rewrite H. simpl.
  destruct (avgSpeedDeps s (handle ev s)); apply handle_avgSpeed.
Qed.

(** Up to the first reset, the average speed is zero while no time has
    elapsed. *)
Lemma avgSpeed_zero_before_reset (evs : list Event) :
  neverReset evs ->
  let s := run evs initial in
  (0 <= elapsedTime s)%Z /\ (elapsedTime s = 0%Z -> avgSpeed s = 0).
Proof.
  intros Hn. cbv zeta.
  induction evs as [|ev evs IH] using rev_ind.
  - simpl. split; [lia | reflexivity].
  - apply Forall_app in Hn as [Hn Hev]. inversion Hev as [|? ? Hne _]; subst.
    destruct (IH Hn) as [Pos Zero]. clear IH.
    rewrite run_snoc. set (s := run evs initial) in *.
    pose proof (handle_elapsedTime_mono ev s Hne) as Hmono.
    destruct (step_rest ev s) as (_ & _ & _ & He & _).
    rewrite He. split; [lia|].
    intros H0. rewrite step_avgSpeed_no_time by exact H0.
    apply Zero. lia.
Qed.

(** C4, on the code: after a hike that is stopped and reset, no time has
    elapsed and the average speed is still the speed of the hike, not
    zero; a session started and stopped at once then shows, in its
    summary, a distance of zero, a time of zero and that average speed. *)
Theorem C4_avgSpeed_stale_after_reset :
  let s := run hikeThenReset initial in
  let t := run hikeThenEmptySession initial in
  status s = idle /\ elapsedTime s = 0%Z /\ 0 < avgSpeed s /\
  status t = summary /\ elapsedTime t = 0%Z /\ distance t = 0 /\
  0 < avgSpeed t.
Proof.
  cbv zeta. rewrite hikeThenReset_state, hikeThenEmptySession_state.
  cbn [status elapsedTime avgSpeed distance].
  pose proof stale_avgSpeed_pos. repeat split; assumption.
Qed.

(** ** Reset *)

(** What the reset handler clears and what it leaves. *)
Lemma handleReset_cells (s : State) :
  let s' := handleReset s in
  (status s' = idle /\ points s' = [] /\ distance s' = 0 /\
   elapsedTime s' = 0%Z /\ elevationGain s' = 0 /\ maxAltitude s' = 0 /\
   calories s' = 0%Z /\ screenIndex s' = 0%Z) /\
  (currentSpeed s' = currentSpeed s /\ avgSpeed s' = avgSpeed s /\
   gpsSignal s' = gpsSignal s).
Proof. repeat split. Qed.

(** C5, on the code: the reset at the end of a hike returns to [idle] and
    clears the points, the distance, the elapsed time, the elevation
    gain, the maximum altitude and the calories; the current speed, the
    average speed and the signal quality keep the values of the hike
    (3.6 km/h, a positive speed, [good]) instead of their initial values
    (0, 0, [none]). *)
Theorem C5_reset_keeps_speeds_and_signal :
  let before :=
    run [Click PlayButton; Fix trailheadFix; Tick; Fix secondFix;
         Click StopButton] initial in
  let after := step (Click ResetButton) before in
  status before = summary /\
  after = run hikeThenReset initial /\
  (status after = idle /\ points after = [] /\ distance after = 0 /\
   elapsedTime after = 0%Z /\ elevationGain after = 0 /\
   maxAltitude after = 0 /\ calories after = 0%Z) /\
  (currentSpeed after = 1 * 3.6 /\
   currentSpeed after <> currentSpeed initial) /\
  (0 < avgSpeed after /\ avgSpeed after <> avgSpeed initial) /\
  (gpsSignal after = good /\ gpsSignal after <> gpsSignal initial).
Proof.
  cbv zeta. rewrite hikeThenReset_state, hike_summary_state, hike_reset.
  cbn [status points distance elapsedTime elevationGain maxAltitude calories
       currentSpeed avgSpeed gpsSignal initial].
  pose proof stale_avgSpeed_pos.
  repeat split; try assumption; try lra; discriminate.
Qed.

(** ** Track export *)

Local Open Scope string_scope.

Lemma string_app_assoc (a b c : string) : (a ++ b) ++ c = a ++ (b ++ c).
Proof. induction a as [|x a IH]; simpl; [reflexivity | now rewrite IH]. Qed.

Lemma string_app_nil_r (a : string) : a ++ EmptyString = a.
Proof. induction a as [|x a IH]; simpl; [reflexivity | now rewrite IH]. Qed.

Section TrackExporterFacts.

Variable Number_toString : R -> string.
Variable Date_toISOString : Z -> string.

Local Abbreviation emit := (emitPoint Number_toString Date_toISOString).
Local Abbreviation export := (generateGPX Number_toString Date_toISOString).

Local Abbreviation body := (body Number_toString Date_toISOString).

(** A point appends its text to whatever was written before. *)
Lemma emitPoint_append (gpx : string) (p : Point) :
  emit gpx p = gpx ++ emit EmptyString p.
Proof.
  unfold emitPoint. destruct (JS.truthy_opt (alt p));
    cbv zeta; now rewrite ?string_app_assoc.
Qed.

Lemma fold_emit_append (ps : list Point) (gpx : string) :
  fold_left emit ps gpx = gpx ++ body ps.
Proof.
  unfold body. revert gpx.
  induction ps as [|p ps IH]; intros gpx; simpl.
  - now rewrite string_app_nil_r.
  - rewrite IH, (IH (emit EmptyString p)), emitPoint_append.
    now rewrite string_app_assoc.
Qed.

Lemma body_app (ps qs : list Point) : body (ps ++ qs) = body ps ++ body qs.
Proof.
  unfold body at 1. rewrite fold_left_app, fold_emit_append.
  now rewrite fold_emit_append.
Qed.

Lemma body_cons (p : Point) (ps : list Point) :
  body (p :: ps) = emit EmptyString p ++ body ps.
Proof. unfold body at 1. simpl. now rewrite fold_emit_append. Qed.

(** The document is the head, what the points append, and the tail. *)
Lemma generateGPX_split (ps : list Point) :
  export ps = gpxHead ++ body ps ++ gpxTail.
Proof.
  unfold generateGPX. cbv zeta. rewrite fold_emit_append.
  unfold gpxHead, gpxTail. now rewrite !string_app_assoc.
Qed.

(** A zero altitude is written like no altitude. *)
Lemma emitPoint_forgetZero (gpx : string) (p : Point) :
  emit gpx (forgetZeroPoint p) = emit gpx p.
Proof.
  unfold emitPoint, forgetZeroPoint, forgetZeroAlt. cbn [lat lng alt timestamp].
  destruct (alt p) as [v|]; [|reflexivity].
  destruct (JS.truthy_opt (Some v)) eqn:E; [now rewrite E | reflexivity].
Qed.

Lemma generateGPX_forgetZero (ps : list Point) :
  export (map forgetZeroPoint ps) = export ps.
Proof.
  rewrite !generateGPX_split. f_equal. f_equal.
  induction ps as [|p ps IH]; [reflexivity|].
  simpl map. rewrite !body_cons, IH. f_equal. apply emitPoint_forgetZero.
Qed.

(** Reading plain text: outside a tag it is skipped, inside a tag it
    joins the text of the tag. *)
Lemma tagsFrom_text_plain (t rest : string) :
  plain t = true -> tagsFrom (t ++ rest) None = tagsFrom rest None.
Proof.
  induction t as [|c t IH]; simpl; [reflexivity|].
  intros H. apply andb_true_iff in H as [H Ht].
  apply andb_true_iff in H as [Hlt _]. apply negb_true_iff in Hlt.
  rewrite Hlt. now apply IH.
Qed.

Lemma tagsFrom_tag_plain (t rest tag : string) :
  plain t = true ->
  tagsFrom (t ++ rest) (Some tag) = tagsFrom rest (Some (tag ++ t)).
Proof.
  revert tag. induction t as [|c t IH]; intros tag; simpl.
  - now rewrite string_app_nil_r.
  - intros H. apply andb_true_iff in H as [H Ht].
    apply andb_true_iff in H as [Hlt Hgt].
    apply negb_true_iff in Hlt, Hgt. rewrite Hlt, Hgt.
    rewrite IH by exact Ht. now rewrite string_app_assoc.
Qed.

Hypothesis Number_plain : forall x, plain (Number_toString x) = true.
Hypothesis Date_plain : forall t, plain (Date_toISOString t) = true.

Ltac read_tags :=
  repeat (cbn;
          rewrite ?(fun r t => tagsFrom_tag_plain _ r t (Number_plain _)),
                  ?(fun r => tagsFrom_text_plain _ r (Number_plain _)),
                  ?(fun r => tagsFrom_text_plain _ r (Date_plain _))).

(** The tags of one point. *)
Lemma tagsFrom_emitPoint (p : Point) (rest : string) :
  tagsFrom (emit EmptyString p ++ rest) None =
  option_map (app (pointTags p)) (tagsFrom rest None).
Proof.
  unfold emitPoint, pointTags, QUOT, LF.
  destruct (JS.truthy_opt (alt p)); cbv zeta;
    rewrite !string_app_assoc; read_tags;
    destruct (tagsFrom rest None); reflexivity.
Qed.

Lemma tagsFrom_body (ps : list Point) (rest : string) :
  tagsFrom (body ps ++ rest) None =
  option_map (app (flat_map pointTags ps)) (tagsFrom rest None).
Proof.
  induction ps as [|p ps IH].
  - simpl. now destruct (tagsFrom rest None).
  - rewrite body_cons, string_app_assoc, tagsFrom_emitPoint, IH.
    destruct (tagsFrom rest None); [|reflexivity].
    cbn [option_map flat_map]. f_equal. apply app_assoc.
Qed.

(** The tags of the whole document. *)
Lemma tagsOf_generateGPX (ps : list Point) :
  tagsOf (export ps) =
  Some (docOpen ++ flat_map pointTags ps ++ docClose)%list.
Proof.
  rewrite generateGPX_split. unfold tagsOf, gpxHead, QUOT, LF.
  rewrite !string_app_assoc. cbn. rewrite tagsFrom_body. reflexivity.
Qed.

End TrackExporterFacts.

(** The tags of the points nest inside any open element. *)
Lemma nests_pointTags (p : Point) (ts : list Tag) (top : string)
    (stack : list string) (roots : nat) :
  nests (pointTags p ++ ts) (top :: stack) roots =
  nests ts (top :: stack) roots.
Proof. unfold pointTags. destruct (JS.truthy_opt (alt p)); reflexivity. Qed.

Lemma nests_points (ps : list Point) (ts : list Tag) (top : string)
    (stack : list string) (roots : nat) :
  nests (flat_map pointTags ps ++ ts) (top :: stack) roots =
  nests ts (top :: stack) roots.
Proof.
  induction ps as [|p ps IH]; [reflexivity|].
  change (flat_map pointTags (p :: ps))
    with (pointTags p ++ flat_map pointTags ps)%list.
  now rewrite <- app_assoc, nests_pointTags.
Qed.

Lemma count_trkpt_points (ps : list Point) :
  List.length (filter (opens "trkpt") (flat_map pointTags ps)) =
  List.length ps.
Proof.
  induction ps as [|p ps IH]; [reflexivity|].
  change (flat_map pointTags (p :: ps))
    with (pointTags p ++ flat_map pointTags ps)%list.
  rewrite filter_app, length_app, IH.
  unfold pointTags. now destruct (JS.truthy_opt (alt p)).
Qed.

Lemma count_ele_points (ps : list Point) :
  List.length (filter (opens "ele") (flat_map pointTags ps)) =
  List.length (filter hasEle ps).
Proof.
  induction ps as [|p ps IH]; [reflexivity|].
  change (flat_map pointTags (p :: ps))
    with (pointTags p ++ flat_map pointTags ps)%list.
  rewrite filter_app, length_app, IH.
  unfold pointTags, hasEle. simpl filter.
  now destruct (JS.truthy_opt (alt p)).
Qed.

Section TrackExporterClaims.

Variable Number_toString : R -> string.
Variable Date_toISOString : Z -> string.

Local Abbreviation export := (generateGPX Number_toString Date_toISOString).

Hypothesis Number_plain : forall x, plain (Number_toString x) = true.
Hypothesis Date_plain : forall t, plain (Date_toISOString t) = true.

Lemma wellFormed_generateGPX (ps : list Point) : wellFormed (export ps) = true.
Proof.
  unfold wellFormed.
  rewrite (tagsOf_generateGPX _ _ Number_plain Date_plain).
  unfold docOpen. cbn [app nests]. cbn [String.eqb Ascii.eqb Bool.eqb andb].
  rewrite nests_points. reflexivity.
Qed.

Lemma countOpen_trkpt (ps : list Point) :
  countOpen "trkpt" (export ps) = List.length ps.
Proof.
  unfold countOpen.
  rewrite (tagsOf_generateGPX _ _ Number_plain Date_plain).
  rewrite !filter_app, !length_app, count_trkpt_points. simpl. lia.
Qed.

Lemma countOpen_ele (ps : list Point) :
  countOpen "ele" (export ps) = List.length (filter hasEle ps).
Proof.
  unfold countOpen.
  rewrite (tagsOf_generateGPX _ _ Number_plain Date_plain).
  rewrite !filter_app, !length_app, count_ele_points. simpl. lia.
Qed.

End TrackExporterClaims.

(** C7. When a point of the sequence has no altitude, the document is the
    document of the other points with one piece of text inserted at the
    point's place: a [<trkpt>] with the point's latitude and longitude
    that holds a [<time>] with the ISO-8601 text of its timestamp and no
    [<ele>].  The other points keep their own elements: the document has
    one more [<trkpt>] and as many [<ele>] as the document without the
    point, and it is well formed.  (Read with conversions that write no
    angle bracket.) *)
Theorem C7_point_without_altitude :
  forall (Number_toString : R -> string) (Date_toISOString : Z -> string)
         (before after : list Point) (la lo : R) (ts : Z) (sp : option R),
    (forall x, plain (Number_toString x) = true) ->
    (forall t, plain (Date_toISOString t) = true) ->
    let export := generateGPX Number_toString Date_toISOString in
    let p := mkPoint la lo None ts sp in
    let fragment :=
      trkptWithoutEle (Number_toString la) (Number_toString lo)
        (Date_toISOString ts) in
    (exists pre post,
        export (before ++ p :: after)%list = pre ++ fragment ++ post /\
        export (before ++ after)%list = pre ++ post) /\
    tagsOf fragment =
      Some [OpenTag "trkpt"; OpenTag "time"; CloseTag "time";
            CloseTag "trkpt"] /\
    tagsOf (export (before ++ p :: after)%list) =
      Some (docOpen ++ flat_map pointTags before ++
            [OpenTag "trkpt"; OpenTag "time"; CloseTag "time";
             CloseTag "trkpt"] ++
            flat_map pointTags after ++ docClose)%list /\
    countOpen "trkpt" (export (before ++ p :: after)%list) =
      S (countOpen "trkpt" (export (before ++ after)%list)) /\
    countOpen "ele" (export (before ++ p :: after)%list) =
      countOpen "ele" (export (before ++ after)%list) /\
    wellFormed (export (before ++ p :: after)%list) = true.
Proof.
  intros fmt iso before after la lo ts sp Hn Hd export p fragment.
  split; [|split; [|split; [|split; [|split]]]].
  - exists (gpxHead ++ body fmt iso before), (body fmt iso after ++ gpxTail).
    unfold export. rewrite !generateGPX_split, !body_app, body_cons.
    rewrite !string_app_assoc. repeat f_equal.
    unfold fragment, trkptWithoutEle, emitPoint, p. cbn [alt JS.truthy_opt].
    cbv zeta. cbn [lat lng timestamp]. now rewrite !string_app_assoc.
  - unfold fragment, trkptWithoutEle, tagsOf, QUOT, LF.
    repeat (cbn;
            rewrite ?(fun r t => tagsFrom_tag_plain _ r t (Hn _)),
                    ?(fun r => tagsFrom_text_plain _ r (Hd _))).
    reflexivity.
  - unfold export. rewrite (tagsOf_generateGPX _ _ Hn Hd).
    rewrite flat_map_app. simpl flat_map. rewrite <- !app_assoc.
    reflexivity.
  - unfold export. rewrite !(countOpen_trkpt _ _ Hn Hd), !length_app.
    simpl. lia.
  - unfold export. rewrite !(countOpen_ele _ _ Hn Hd), !filter_app.
    reflexivity.
  - apply (wellFormed_generateGPX _ _ Hn Hd).
Qed.

(** C7 on a track of three points, the middle one without altitude. *)
Lemma C7_point_without_altitude_witness :
  let track :=
    ([newPointOf hillFix] ++ mkPoint 0 0 None 0 None ::
     [newPointOf secondFix])%list in
  tagsOf (trkptWithoutEle (zeroText 0) (zeroText 0) (epochText 0)) =
    Some [OpenTag "trkpt"; OpenTag "time"; CloseTag "time"; CloseTag "trkpt"] /\
  wellFormed (generateGPX zeroText epochText track) = true.
Proof.
  intros track.
  destruct (C7_point_without_altitude zeroText epochText
              [newPointOf hillFix] [newPointOf secondFix] 0 0 0%Z None
              (fun _ => eq_refl) (fun _ => eq_refl))
    as (_ & Hfrag & _ & _ & _ & Hwf).
  split; [exact Hfrag | exact Hwf].
Defined.

(** C8. The export of the empty sequence is a fixed text: a well-formed
    document whose root [<gpx>] declares version 1.1 and holds one
    [<trk>] with its name and one [<trkseg>], and no [<trkpt>]. *)
Theorem C8_empty_track :
  forall (Number_toString : R -> string) (Date_toISOString : Z -> string),
    let doc := generateGPX Number_toString Date_toISOString [] in
    doc = emptyDocument /\
    wellFormed doc = true /\
    tagsOf doc =
      Some [Prolog; OpenTag "gpx"; OpenTag "trk"; OpenTag "name";
            CloseTag "name"; OpenTag "trkseg"; CloseTag "trkseg";
            CloseTag "trk"; CloseTag "gpx"] /\
    countOpen "gpx" doc = 1%nat /\
    countOpen "trk" doc = 1%nat /\
    countOpen "trkseg" doc = 1%nat /\
    countOpen "trkpt" doc = 0%nat /\
    occurrences "<trkpt" doc = 0%nat /\
    occurrences ("<gpx version=" ++ QUOT ++ "1.1" ++ QUOT) doc = 1%nat.
Proof.
  intros fmt iso doc. repeat split; vm_compute; reflexivity.
Qed.

Local Close Scope string_scope.

(** ** An altitude of zero *)

Lemma State_ext (s t : State) :
  status s = status t -> points s = points t -> distance s = distance t ->
  elapsedTime s = elapsedTime t -> elevationGain s = elevationGain t ->
  maxAltitude s = maxAltitude t -> currentSpeed s = currentSpeed t ->
  avgSpeed s = avgSpeed t -> gpsSignal s = gpsSignal t ->
  calories s = calories t -> screenIndex s = screenIndex t -> s = t.
Proof.
  destruct s, t. simpl. intros. subst. reflexivity.
Qed.

Lemma truthy_forgetZero (a : option R) :
  JS.truthy_opt (forgetZeroAlt a) = JS.truthy_opt a.
Proof.
  unfold forgetZeroAlt. destruct (JS.truthy_opt a) eqn:E; [exact E|].
  reflexivity.
Qed.

Lemma toNumber_forgetZero (a : option R) :
  JS.toNumber (forgetZeroAlt a) = JS.toNumber a.
Proof.
  unfold forgetZeroAlt. destruct (JS.truthy_opt a) eqn:E; [reflexivity|].
  apply JSFacts.truthy_opt_false in E as [-> | ->]; reflexivity.
Qed.

Lemma forgetZeroAlt_zero : forgetZeroAlt (Some 0) = None.
Proof. unfold forgetZeroAlt. simpl. js_compare. reflexivity. Qed.

Lemma climbs_forgetZero (p l : Point) :
  climbs (forgetZeroPoint p) (forgetZeroPoint l) = climbs p l.
Proof.
  unfold climbs, forgetZeroPoint. cbn [alt].
  now rewrite !truthy_forgetZero, !toNumber_forgetZero.
Qed.

Lemma tops_forgetZero (p : Point) (m : R) :
  tops (forgetZeroPoint p) m = tops p m.
Proof.
  unfold tops, forgetZeroPoint. cbn [alt].
  now rewrite truthy_forgetZero, toNumber_forgetZero.
Qed.

(** Forgetting the altitudes of zero before a fix is ingested or after
    gives the same state. *)
Lemma forgetZero_onPosition (position : Position) (s : State) :
  forgetZeroState (onPosition position s) =
  onPosition (forgetZeroPosition position) (forgetZeroState s).
Proof.
  pose proof (onPosition_rest position s) as (A1 & A2 & A3 & A4 & A5).
  pose proof (onPosition_rest (forgetZeroPosition position)
                (forgetZeroState s)) as (B1 & B2 & B3 & B4 & B5).
  apply State_ext; unfold forgetZeroState at 1;
    cbn [setPoints status points distance elapsedTime elevationGain
         maxAltitude currentSpeed avgSpeed gpsSignal calories screenIndex].
  - now rewrite A1, B1.
  - rewrite !onPosition_points, map_app. reflexivity.
  - rewrite !onPosition_distance.
    change (points (forgetZeroState s)) with (map forgetZeroPoint (points s)).
    rewrite lastOf_map. now destruct (lastOf (points s)).
  - now rewrite A2, B2.
  - rewrite !onPosition_elevationGain.
    change (points (forgetZeroState s)) with (map forgetZeroPoint (points s)).
    rewrite lastOf_map. destruct (lastOf (points s)) as [l|]; [|reflexivity].
    cbn [option_map].
    change (newPointOf (forgetZeroPosition position))
      with (forgetZeroPoint (newPointOf position)).
    rewrite climbs_forgetZero.
    change (altitude (coords (forgetZeroPosition position)))
      with (forgetZeroAlt (altitude (coords position))).
    change (alt (forgetZeroPoint l)) with (forgetZeroAlt (alt l)).
    now rewrite !toNumber_forgetZero.
  - rewrite !onPosition_maxAltitude.
    change (newPointOf (forgetZeroPosition position))
      with (forgetZeroPoint (newPointOf position)).
    rewrite tops_forgetZero.
    change (altitude (coords (forgetZeroPosition position)))
      with (forgetZeroAlt (altitude (coords position))).
    now rewrite toNumber_forgetZero.
  - now rewrite !onPosition_currentSpeed.
  - now rewrite A3, B3.
  - now rewrite !onPosition_gpsSignal.
  - now rewrite A4, B4.
  - now rewrite A5, B5.
Qed.

Lemma forgetZero_handle (ev : Event) (s : State) :
  forgetZeroState (handle ev s) =
  handle (forgetZeroEvent ev) (forgetZeroState s).
Proof.
  destruct ev as [b | position | | | x]; cbn [forgetZeroEvent handle];
    change (status (forgetZeroState s)) with (status s).
  - destruct (rendered (status s) b); [|reflexivity].
    destruct s; destruct b; reflexivity.
  - destruct (Status_eqb (status s) active); [|reflexivity].
    apply forgetZero_onPosition.
  - now destruct (Status_eqb (status s) active).
  - now destruct (Status_eqb (status s) active).
  - destruct (negb (Status_eqb (status s) summary)); [|reflexivity].
    unfold onDragEnd. now destruct (JS.ltb x (-50)), (JS.ltb 50 x).
Qed.

Lemma forgetZero_step (ev : Event) (s : State) :
  forgetZeroState (step ev s) =
  step (forgetZeroEvent ev) (forgetZeroState s).
Proof.
  unfold step. rewrite <- forgetZero_handle.
  change (avgSpeedDeps (forgetZeroState s) (forgetZeroState (handle ev s)))
    with (avgSpeedDeps s (handle ev s)).
  destruct (avgSpeedDeps s (handle ev s)); [|reflexivity].
  unfold avgSpeedEffect.
  change (elapsedTime (forgetZeroState (handle ev s)))
    with (elapsedTime (handle ev s)).
  now destruct (0 <? elapsedTime (handle ev s))%Z.
Qed.

Lemma forgetZero_run (evs : list Event) (s : State) :
  forgetZeroState (run evs s) =
  run (map forgetZeroEvent evs) (forgetZeroState s).
Proof.
  revert s. induction evs as [|ev evs IH]; intros s; [reflexivity|].
  simpl map. rewrite !run_cons, IH, forgetZero_step. reflexivity.
Qed.

(** Two sequences of events that differ in altitudes of zero only end in
    states that show the same. *)
Lemma run_sameDisplay (evs1 evs2 : list Event) :
  map forgetZeroEvent evs1 = map forgetZeroEvent evs2 ->
  sameDisplay (run evs1 initial) (run evs2 initial).
Proof.
  intros H. unfold sameDisplay. rewrite !forgetZero_run. now rewrite H.
Qed.

Lemma sameDisplay_cells (s t : State) :
  sameDisplay s t ->
  status s = status t /\ distance s = distance t /\
  elapsedTime s = elapsedTime t /\ elevationGain s = elevationGain t /\
  maxAltitude s = maxAltitude t /\ currentSpeed s = currentSpeed t /\
  avgSpeed s = avgSpeed t /\ gpsSignal s = gpsSignal t /\
  calories s = calories t /\ screenIndex s = screenIndex t /\
  map forgetZeroPoint (points s) = map forgetZeroPoint (points t).
Proof.
  unfold sameDisplay, forgetZeroState, setPoints. intros H.
  inversion H. repeat split; assumption.
Qed.

Lemma map_forgetZero_trace (ps qs : list Point) :
  map forgetZeroPoint ps = map forgetZeroPoint qs ->
  map (fun p => (lat p, lng p)) ps = map (fun p => (lat p, lng p)) qs.
Proof.
  intros H.
  assert (E : forall l,
             map (fun p => (lat p, lng p)) l =
             map (fun p => (lat p, lng p)) (map forgetZeroPoint l)).
  { intros l. rewrite map_map. reflexivity. }
  now rewrite (E ps), (E qs), H.
Qed.

(** C10. An altitude of exactly zero is treated as no altitude.  The
    export writes for such a point the text of a point without [<ele>].
    A fix at altitude zero changes neither the elevation gain nor the
    maximum altitude, and a fix that follows a point at altitude zero
    does not change the elevation gain.  Two sequences of events that
    differ only in whether an altitude is zero or absent lead to the same
    status and metrics, the same map trace and the same exported
    document. *)
Theorem C10_zero_altitude_is_absent :
  forall (Number_toString : R -> string) (Date_toISOString : Z -> string)
         (gpx : string) (p l : Point) (position : Position) (s : State)
         (evs1 evs2 : list Event),
    (alt p = Some 0 ->
     emitPoint Number_toString Date_toISOString gpx p =
     (gpx ++ trkptWithoutEle (Number_toString (lat p))
               (Number_toString (lng p))
               (Date_toISOString (timestamp p)))%string) /\
    (altitude (coords position) = Some 0 ->
     elevationGain (onPosition position s) = elevationGain s /\
     maxAltitude (onPosition position s) = maxAltitude s) /\
    (lastOf (points s) = Some l -> alt l = Some 0 ->
     elevationGain (onPosition position s) = elevationGain s) /\
    (map forgetZeroEvent evs1 = map forgetZeroEvent evs2 ->
     let s1 := run evs1 initial in
     let s2 := run evs2 initial in
     status s1 = status s2 /\ distance s1 = distance s2 /\
     elapsedTime s1 = elapsedTime s2 /\
     elevationGain s1 = elevationGain s2 /\
     maxAltitude s1 = maxAltitude s2 /\
     currentSpeed s1 = currentSpeed s2 /\ avgSpeed s1 = avgSpeed s2 /\
     gpsSignal s1 = gpsSignal s2 /\ calories s1 = calories s2 /\
     map (fun q => (lat q, lng q)) (points s1) =
       map (fun q => (lat q, lng q)) (points s2) /\
     generateGPX Number_toString Date_toISOString (points s1) =
       generateGPX Number_toString Date_toISOString (points s2)).
Proof.
  intros fmt iso gpx p l position s evs1 evs2.
  split; [|split; [|split]].
  - intros Hp. unfold emitPoint, trkptWithoutEle. rewrite Hp.
    cbn [JS.truthy_opt]. rewrite JSFacts.eqb_refl || js_compare.
    cbv zeta. now rewrite !string_app_assoc.
  - intros Hz. rewrite onPosition_elevationGain, onPosition_maxAltitude.
    unfold climbs, tops. cbn [newPointOf alt]. rewrite Hz.
    cbn [JS.truthy_opt]. js_compare. cbn [andb].
    now destruct (lastOf (points s)).
  - intros Hl Hz. rewrite onPosition_elevationGain, Hl.
    unfold climbs. rewrite Hz. cbn [JS.truthy_opt]. js_compare.
    now rewrite andb_false_r.
  - intros H. cbv zeta.
    destruct (sameDisplay_cells _ _ (run_sameDisplay evs1 evs2 H))
      as (H1 & H2 & H3 & H4 & H5 & H6 & H7 & H8 & H9 & _ & Hp).
    repeat split; try assumption.
    + now apply map_forgetZero_trace.
    + rewrite <- (generateGPX_forgetZero fmt iso (points (run evs1 initial))).
      rewrite <- (generateGPX_forgetZero fmt iso (points (run evs2 initial))).
      now rewrite Hp.
Qed.

(** C10 on a walk that starts at sea level, told with an altitude of zero
    and with no altitude. *)
Lemma C10_zero_altitude_is_absent_witness :
  let s0 := run [Click PlayButton; Fix seaLevelFix] initial in
  elevationGain (run seaLevelWalk initial) =
    elevationGain (run noAltitudeWalk initial) /\
  maxAltitude (run seaLevelWalk initial) =
    maxAltitude (run noAltitudeWalk initial) /\
  generateGPX zeroText epochText (points (run seaLevelWalk initial)) =
    generateGPX zeroText epochText (points (run noAltitudeWalk initial)) /\
  elevationGain (onPosition seaLevelFix s0) = elevationGain s0 /\
  maxAltitude (onPosition seaLevelFix s0) = maxAltitude s0 /\
  elevationGain (onPosition hillFix s0) = elevationGain s0 /\
  emitPoint zeroText epochText EmptyString (newPointOf seaLevelFix) =
    trkptWithoutEle (zeroText 0) (zeroText 0) (epochText 0).
Proof.
  intros s0.
  assert (Hevs : map forgetZeroEvent seaLevelWalk =
                 map forgetZeroEvent noAltitudeWalk).
  { unfold seaLevelWalk, noAltitudeWalk, seaLevelFix, noAltitudeFix.
    cbn [map forgetZeroEvent]. unfold forgetZeroPosition at 1 3.
    cbn [coords latitude longitude altitude coords_speed accuracy
         position_timestamp].
    rewrite forgetZeroAlt_zero. reflexivity. }
  assert (Hlast : lastOf (points s0) = Some (newPointOf seaLevelFix)).
  { unfold s0. now rewrite run_start_fix_points. }
  destruct (C10_zero_altitude_is_absent zeroText epochText EmptyString
              (newPointOf seaLevelFix) (newPointOf seaLevelFix) seaLevelFix
              s0 seaLevelWalk noAltitudeWalk)
    as (Hemit & Hfix & _ & Hrun).
  destruct (C10_zero_altitude_is_absent zeroText epochText EmptyString
              (newPointOf seaLevelFix) (newPointOf seaLevelFix) hillFix
              s0 seaLevelWalk noAltitudeWalk)
    as (_ & _ & Hafter & _).
  destruct (Hrun Hevs) as (_ & _ & _ & Hg & Hm & _ & _ & _ & _ & _ & Hx).
  destruct (Hfix eq_refl) as [Hg0 Hm0].
  split; [exact Hg|]. split; [exact Hm|]. split; [exact Hx|].
  split; [exact Hg0|]. split; [exact Hm0|].
  split; [exact (Hafter Hlast eq_refl)|]. exact (Hemit eq_refl).
Defined.

(** * Part III: further properties of the code *)

(** ** More on the haversine distance *)

Lemma atan2_quadrant (y x : R) : 0 <= y -> 0 <= x -> JS.atan2 y x <= PI / 2.
Proof.
  intros Hy Hx. unfold JS.atan2. pose proof PI_RGT_0 as Hpi.
  destruct (Rlt_dec 0 x) as [Hpos | Hn].
  - destruct (atan_bound (y / x)). lra.
  - destruct (Rlt_dec x 0); [lra|].
    destruct (Rlt_dec 0 y); [lra|].
    destruct (Rlt_dec y 0); lra.
Qed.

(** The angle of a point of the first quadrant of the unit circle. *)
Lemma atan2_sin_cos (x : R) :
  0 <= x <= PI / 2 -> JS.atan2 (sin x) (cos x) = x.
Proof.
  intros [Hlo Hhi]. unfold JS.atan2. pose proof PI_RGT_0 as Hpi.
  destruct Hhi as [Hlt | Heq].
  - assert (Hc : 0 < cos x) by (apply cos_gt_0; lra).
    destruct (Rlt_dec 0 (cos x)) as [_ | Hn]; [|contradiction].
    change (sin x / cos x) with (tan x). apply atan_tan. lra.
  - subst x. rewrite cos_PI2, sin_PI2.
    destruct (Rlt_dec 0 0) as [H | _]; [lra|].
    destruct (Rlt_dec 0 1) as [_ | H]; [reflexivity | lra].
Qed.

(** The [a] of [haversine] is the half of one minus the cosine of the
    central angle. *)
Lemma haversine_a_cosine (lat1 lon1 lat2 lon2 : R) :
  haversine_a lat1 lon1 lat2 lon2 =
  (1 - centralCosine lat1 lon1 lat2 lon2) / 2.
Proof.
  unfold haversine_a, centralCosine. cbv zeta.
  rewrite (sin_half_sqr ((lat2 - lat1) * PI / 180)).
  rewrite !Rmult_assoc.
  rewrite (sin_half_sqr ((lon2 - lon1) * PI / 180)).
  replace ((lat2 - lat1) * PI / 180)
    with (lat2 * PI / 180 - lat1 * PI / 180) by field.
  rewrite cos_minus. field.
Qed.

Lemma centralCosine_range (lat1 lon1 lat2 lon2 : R) :
  -1 <= centralCosine lat1 lon1 lat2 lon2 <= 1.
Proof.
  pose proof (haversine_a_range lat1 lon1 lat2 lon2) as H.
  rewrite haversine_a_cosine in H. lra.
Qed.

(** In exact arithmetic [haversine] is the great-circle distance. *)
Lemma haversine_greatCircle (lat1 lon1 lat2 lon2 : R) :
  haversine lat1 lon1 lat2 lon2 = greatCircle lat1 lon1 lat2 lon2.
Proof.
  unfold haversine, greatCircle. cbv zeta. rewrite haversine_a_cosine.
  pose proof (centralCosine_range lat1 lon1 lat2 lon2) as Hc.
  set (c := centralCosine lat1 lon1 lat2 lon2) in *.
  pose proof (acos_bound c) as Hb. pose proof (cos_acos c Hc) as Hcos.
  set (x := acos c / 2).
  assert (Hx : 0 <= x <= PI / 2) by (unfold x; lra).
  assert (Ha : (1 - c) / 2 = sin x * sin x).
  { unfold x. rewrite sin_half_sqr, Hcos. reflexivity. }
  assert (Hs : 0 <= sin x) by (apply sin_ge_0; pose proof PI_RGT_0; lra).
  assert (Hk : 0 <= cos x) by (apply cos_ge_0; pose proof PI_RGT_0; lra).
  rewrite Ha, (sqrt_square (sin x) Hs).
  replace (1 - sin x * sin x) with (cos x * cos x).
  2:{ pose proof (sin2_cos2 x) as H. unfold Rsqr in H. lra. }
  rewrite (sqrt_square (cos x) Hk), (atan2_sin_cos x Hx).
  unfold x. field.
Qed.

(** X1. For two positions that are not antipodal or nearly so (the cosine
    of their central angle is at least -0.999999, so they are more than
    about 9 km away from being antipodal), [haversine] returns the
    great-circle distance on the sphere of radius 6371 km: the radius
    times the central angle given by the spherical law of cosines.  The
    quantity under its square roots is then at most 0.9999995, and the
    distance lies between 0 and [6371 * PI]. *)
Theorem X1_haversine_great_circle :
  forall lat1 lon1 lat2 lon2 : R,
    notAntipodal lat1 lon1 lat2 lon2 ->
    haversine lat1 lon1 lat2 lon2 =
      6371 * acos (sin (lat1 * PI / 180) * sin (lat2 * PI / 180) +
                   cos (lat1 * PI / 180) * cos (lat2 * PI / 180) *
                   cos ((lon2 - lon1) * PI / 180)) /\
    0 <= haversine_a lat1 lon1 lat2 lon2 <= 0.9999995 /\
    0 <= haversine lat1 lon1 lat2 lon2 <= 6371 * PI.
Proof.
  intros lat1 lon1 lat2 lon2 Hfar. unfold notAntipodal in Hfar.
  split; [apply haversine_greatCircle|].
  pose proof (haversine_a_range lat1 lon1 lat2 lon2) as Ha.
  split.
  - split; [apply Ha|]. rewrite haversine_a_cosine. lra.
  - split; [apply haversine_nonneg|].
    rewrite haversine_greatCircle. unfold greatCircle.
    pose proof (acos_bound (centralCosine lat1 lon1 lat2 lon2)). lra.
Qed.

Lemma notAntipodal_equator_step : notAntipodal 0 0 0 0.01.
Proof.
  unfold notAntipodal, centralCosine.
  replace (0 * PI / 180) with 0 by field.
  rewrite sin_0, cos_0. pose proof PI_RGT_0 as Hpi.
  assert (Hc : 0 <= cos ((0.01 - 0) * PI / 180)) by (apply cos_ge_0; lra).
  lra.
Qed.

(** X1 on the two fixes of the hike. *)
Lemma X1_haversine_great_circle_witness :
  0 <= haversine 0 0 0 0.01 <= 6371 * PI.
Proof.
  apply (X1_haversine_great_circle 0 0 0 0.01).
  apply notAntipodal_equator_step.
Defined.

Lemma haversine_a_sym (lat1 lon1 lat2 lon2 : R) :
  haversine_a lat1 lon1 lat2 lon2 = haversine_a lat2 lon2 lat1 lon1.
Proof.
  unfold haversine_a. cbv zeta.
  replace ((lat1 - lat2) * PI / 180 / 2)
    with (- ((lat2 - lat1) * PI / 180 / 2)) by field.
  replace ((lon1 - lon2) * PI / 180 / 2)
    with (- ((lon2 - lon1) * PI / 180 / 2)) by field.
  rewrite !sin_neg. ring.
Qed.

(** X2. The distance does not depend on the direction of travel, and a
    point is at distance zero from itself. *)
Theorem X2_haversine_symmetric :
  forall lat1 lon1 lat2 lon2 : R,
    haversine lat1 lon1 lat2 lon2 = haversine lat2 lon2 lat1 lon1 /\
    haversine lat1 lon1 lat1 lon1 = 0.
Proof.
  intros lat1 lon1 lat2 lon2. split; [|apply haversine_same].
  unfold haversine. cbv zeta.
  now rewrite (haversine_a_sym lat1 lon1 lat2 lon2).
Qed.

Lemma haversine_meridian_a (lat1 lat2 lon : R) :
  haversine_a lat1 lon lat2 lon =
  sin ((lat2 - lat1) * PI / 180 / 2) * sin ((lat2 - lat1) * PI / 180 / 2).
Proof.
  unfold haversine_a. cbv zeta.
  replace ((lon - lon) * PI / 180 / 2) with 0 by field.
  rewrite sin_0. ring.
Qed.

(** X3. Along a meridian the distance is the arc: for two positions of
    the same longitude whose latitudes differ by [d] degrees, with
    [0 <= d <= 180], it is [6371 * (d * PI / 180)] kilometres. *)
Theorem X3_haversine_meridian :
  forall lat1 lat2 lon : R,
    0 <= lat2 - lat1 <= 180 ->
    haversine lat1 lon lat2 lon = 6371 * ((lat2 - lat1) * PI / 180).
Proof.
  intros lat1 lat2 lon [Hlo Hhi]. pose proof PI_RGT_0 as Hpi.
  unfold haversine. cbv zeta. rewrite haversine_meridian_a.
  set (x := (lat2 - lat1) * PI / 180 / 2).
  assert (Hx : 0 <= x <= PI / 2).
  { unfold x. split.
    - apply Rmult_le_pos; [|lra]. apply Rmult_le_pos; [|lra].
      apply Rmult_le_pos; lra.
    - assert ((lat2 - lat1) * PI <= 180 * PI) by nra. lra. }
  assert (Hs : 0 <= sin x) by (apply sin_ge_0; lra).
  assert (Hc : 0 <= cos x) by (apply cos_ge_0; lra).
  rewrite (sqrt_square (sin x) Hs).
  replace (1 - sin x * sin x) with (cos x * cos x).
  2:{ pose proof (sin2_cos2 x) as H. unfold Rsqr in H. lra. }
  rewrite (sqrt_square (cos x) Hc), (atan2_sin_cos x Hx).
  unfold x. field.
Qed.

(** X3 on one degree of latitude north of the equator. *)
Lemma X3_haversine_meridian_witness :
  haversine 0 0 1 0 = 6371 * ((1 - 0) * PI / 180).
Proof. apply (X3_haversine_meridian 0 1 0). lra. Defined.

(** X4. Along the equator the distance is the arc: for two positions of
    latitude zero whose longitudes differ by [d] degrees, with
    [0 <= d <= 180], it is [6371 * (d * PI / 180)] kilometres. *)
Theorem X4_haversine_equator :
  forall lon1 lon2 : R,
    0 <= lon2 - lon1 <= 180 ->
    haversine 0 lon1 0 lon2 = 6371 * ((lon2 - lon1) * PI / 180).
Proof.
  intros lon1 lon2 [Hlo Hhi]. pose proof PI_RGT_0 as Hpi.
  unfold haversine, haversine_a. cbv zeta.
  replace ((0 - 0) * PI / 180 / 2) with 0 by field.
  replace (0 * PI / 180) with 0 by field.
  rewrite sin_0, cos_0.
  set (x := (lon2 - lon1) * PI / 180 / 2).
  assert (Hx : 0 <= x <= PI / 2).
  { unfold x. split.
    - apply Rmult_le_pos; [|lra]. apply Rmult_le_pos; [|lra].
      apply Rmult_le_pos; lra.
    - assert ((lon2 - lon1) * PI <= 180 * PI) by nra. lra. }
  assert (Hs : 0 <= sin x) by (apply sin_ge_0; lra).
  assert (Hc : 0 <= cos x) by (apply cos_ge_0; lra).
  replace (0 * 0 + 1 * 1 * sin x * sin x) with (sin x * sin x) by ring.
  rewrite (sqrt_square (sin x) Hs).
  replace (1 - sin x * sin x) with (cos x * cos x).
  2:{ pose proof (sin2_cos2 x) as H. unfold Rsqr in H. lra. }
  rewrite (sqrt_square (cos x) Hc), (atan2_sin_cos x Hx).
  unfold x. field.
Qed.

(** X4 on the two fixes of the hike: one hundredth of a degree. *)
Lemma X4_haversine_equator_witness :
  haversine 0 0 0 0.01 = 6371 * ((0.01 - 0) * PI / 180).
Proof. apply (X4_haversine_equator 0 0.01). lra. Defined.

(** ** Invariants of the recording *)

Lemma climbsOf_snoc (l : list Point) (p q : Point) :
  climbsOf ((l ++ [p]) ++ [q]) = climbsOf (l ++ [p]) ++ [climbOf p q].
Proof.
  induction l as [|a l IH]; [reflexivity|].
  destruct l as [|b l].
  - reflexivity.
  - change (climbsOf (((a :: b :: l) ++ [p]) ++ [q]))
      with (climbOf a b :: climbsOf (((b :: l) ++ [p]) ++ [q])).
    rewrite IH. reflexivity.
Qed.

Lemma totalClimb_snoc (l : list Point) (q : Point) :
  totalClimb (l ++ [q]) =
  totalClimb l + match lastOf l with
                 | Some p => climbOf p q
                 | None => 0
                 end.
Proof.
  destruct l as [|p l] using rev_ind.
  - unfold totalClimb. simpl. lra.
  - rewrite lastOf_snoc. unfold totalClimb.
    rewrite climbsOf_snoc, sum_snoc. reflexivity.
Qed.

Lemma climbOf_nonneg (l p : Point) : 0 <= climbOf l p.
Proof.
  unfold climbOf. destruct (climbs p l) eqn:E; [|lra].
  apply climbs_gain in E. lra.
Qed.

Lemma totalClimb_nonneg (ps : list Point) : 0 <= totalClimb ps.
Proof.
  unfold totalClimb. induction ps as [|p ps IH]; [simpl; lra|].
  destruct ps as [|q ps]; [simpl; lra|].
  change (climbsOf (p :: q :: ps)) with (climbOf p q :: climbsOf (q :: ps)).
  cbn [fold_right]. pose proof (climbOf_nonneg p q). lra.
Qed.

Lemma handle_keeps_climb (ev : Event) (s : State) :
  elevationGain s = totalClimb (points s) ->
  elevationGain (handle ev s) = totalClimb (points (handle ev s)).
Proof.
  intros Inv. destruct ev as [b | position | | | x]; simpl.
  - destruct (rendered (status s) b); [|exact Inv].
    destruct b; simpl; try exact Inv.
    unfold totalClimb; reflexivity.
  - destruct (Status_eqb (status s) active); [|exact Inv].
    rewrite onPosition_elevationGain, onPosition_points, totalClimb_snoc, Inv.
    destruct (lastOf (points s)) as [l|]; [|lra].
    unfold climbOf.
    destruct (climbs (newPointOf position) l); cbn [newPointOf alt]; lra.
  - destruct (Status_eqb (status s) active); exact Inv.
  - destruct (Status_eqb (status s) active); exact Inv.
  - destruct (negb (Status_eqb (status s) summary)); [|exact Inv].
    destruct (onDragEnd_rest x s) as (_ & Hp & _ & _ & Hg & _).
    now rewrite Hp, Hg.
Qed.

(** X5. After every sequence of events the elevation gain is the sum,
    over each recorded point and the next, of the altitude gained where
    both altitudes are non-zero and the next is higher; it is never
    negative. *)
Theorem X5_elevationGain_is_total_climb :
  forall evs : list Event,
    let s := run evs initial in
    elevationGain s = totalClimb (points s) /\ 0 <= elevationGain s.
Proof.
  intros evs. cbv zeta.
  assert (H : elevationGain (run evs initial) =
              totalClimb (points (run evs initial))).
  { apply (run_invariant
             (fun s => elevationGain s = totalClimb (points s))).
    - unfold totalClimb. reflexivity.
    - intros ev s Inv.
      destruct (step_rest ev s) as (_ & Hp & _ & _ & Hg & _).
      rewrite Hp, Hg. now apply handle_keeps_climb. }
  split; [exact H|]. rewrite H. apply totalClimb_nonneg.
Qed.

Lemma highest_snoc (l : list Point) (p : Point) :
  highest (l ++ [p]) = Rmax (highest l) (JS.toNumber (alt p)).
Proof. unfold highest. now rewrite fold_left_app. Qed.

Lemma highest_from (ps : list Point) (m : R) :
  m <= fold_left (fun m p => Rmax m (JS.toNumber (alt p))) ps m.
Proof.
  revert m. induction ps as [|p ps IH]; intros m; simpl; [lra|].
  pose proof (IH (Rmax m (JS.toNumber (alt p)))).
  pose proof (Rmax_l m (JS.toNumber (alt p))). lra.
Qed.

Lemma highest_nonneg (ps : list Point) : 0 <= highest ps.
Proof. apply highest_from. Qed.

Lemma tops_max (p : Point) (m : R) :
  0 <= m ->
  (if tops p m then JS.toNumber (alt p) else m) =
  Rmax m (JS.toNumber (alt p)).
Proof.
  intros Hm. unfold tops.
  destruct (JS.truthy_opt (alt p)) eqn:T; simpl.
  - destruct (JS.ltb m (JS.toNumber (alt p))) eqn:L.
    + apply JSFacts.ltb_true in L. rewrite Rmax_right; lra.
    + apply JSFacts.ltb_false in L. rewrite Rmax_left; lra.
  - apply JSFacts.truthy_opt_false in T as [-> | ->]; simpl;
      rewrite Rmax_left; lra.
Qed.

Lemma handle_keeps_highest (ev : Event) (s : State) :
  maxAltitude s = highest (points s) ->
  maxAltitude (handle ev s) = highest (points (handle ev s)).
Proof.
  intros Inv. destruct ev as [b | position | | | x]; simpl.
  - destruct (rendered (status s) b); [|exact Inv].
    destruct b; simpl; try exact Inv. reflexivity.
  - destruct (Status_eqb (status s) active); [|exact Inv].
    rewrite onPosition_maxAltitude, onPosition_points, highest_snoc.
    rewrite tops_max by (rewrite Inv; apply highest_nonneg).
    now rewrite Inv.
  - destruct (Status_eqb (status s) active); exact Inv.
  - destruct (Status_eqb (status s) active); exact Inv.
  - destruct (negb (Status_eqb (status s) summary)); [|exact Inv].
    destruct (onDragEnd_rest x s) as (_ & Hp & _ & _ & _ & Hm & _).
    now rewrite Hp, Hm.
Qed.

(** X6. After every sequence of events the maximum altitude is the
    highest altitude among the recorded points, or zero when no recorded
    altitude is above zero: it is never negative, so a track that stays
    below sea level shows a maximum of zero. *)
Theorem X6_maxAltitude_is_highest :
  forall evs : list Event,
    let s := run evs initial in
    maxAltitude s = highest (points s) /\
    0 <= maxAltitude s /\
    Forall (fun p => JS.toNumber (alt p) <= maxAltitude s) (points s).
Proof.
  intros evs. cbv zeta.
  assert (H : maxAltitude (run evs initial) =
              highest (points (run evs initial))).
  { apply (run_invariant (fun s => maxAltitude s = highest (points s))).
    - reflexivity.
    - intros ev s Inv.
      destruct (step_rest ev s) as (_ & Hp & _ & _ & _ & Hm & _).
      rewrite Hp, Hm. now apply handle_keeps_highest. }
  split; [exact H|]. rewrite H. split; [apply highest_nonneg|].
  generalize (points (run evs initial)). intros ps.
  induction ps as [|p ps IH] using rev_ind; [constructor|].
  rewrite highest_snoc. apply Forall_app. split.
  - eapply Forall_impl; [|exact IH]. intros q Hq. simpl in Hq.
    pose proof (Rmax_l (highest ps) (JS.toNumber (alt p))). lra.
  - constructor; [|constructor]. apply Rmax_r.
Qed.

(** ** Standing still, pausing and counting seconds *)

(** X7. A fix of an active session at the coordinates of the last
    recorded point is recorded and adds no distance. *)
Theorem X7_standing_still :
  forall (position : Position) (s : State) (l : Point),
    status s = active ->
    lastOf (points s) = Some l ->
    latitude (coords position) = lat l ->
    longitude (coords position) = lng l ->
    points (step (Fix position) s) = points s ++ [newPointOf position] /\
    distance (step (Fix position) s) = distance s.
Proof.
  intros position s l Hs Hl Hlat Hlng. split.
  - now rewrite step_Fix_points, Hs.
  - destruct (step_rest (Fix position) s) as (_ & _ & Hd & _).
    rewrite Hd, (handle_Fix_active position s Hs), onPosition_distance, Hl.
    unfold legLength. cbn [newPointOf lat lng].
    rewrite Hlat, Hlng, haversine_same. lra.
Qed.

(** X7 on a second fix at the place of the first. *)
Lemma X7_standing_still_witness :
  let s := run [Click PlayButton; Fix seaLevelFix] initial in
  distance (step (Fix hillFix) s) = distance s.
Proof.
  intros s.
  apply (X7_standing_still hillFix s (newPointOf seaLevelFix)).
  - apply run_start_fix_status.
  - unfold s. now rewrite run_start_fix_points.
  - reflexivity.
  - reflexivity.
Defined.

Lemma sameRecording_refl (s : State) : sameRecording s s.
Proof. repeat split. Qed.

Lemma sameRecording_trans (s t u : State) :
  sameRecording s t -> sameRecording t u -> sameRecording s u.
Proof.
  unfold sameRecording.
  intros (A1 & A2 & A3 & A4 & A5 & A6 & A7 & A8 & A9)
         (B1 & B2 & B3 & B4 & B5 & B6 & B7 & B8 & B9).
  repeat split; congruence.
Qed.

Lemma sameRecording_setStatus (st : Status) (s : State) :
  sameRecording (setStatus st s) s.
Proof. repeat split. Qed.

Lemma sameRecording_onDragEnd (x : R) (s : State) :
  sameRecording (onDragEnd x s) s.
Proof.
  unfold onDragEnd. destruct (JS.ltb x (-50)), (JS.ltb 50 x); repeat split.
Qed.

(** One event after the recording has ended. *)
Lemma step_after_pause (ev : Event) (s : State) :
  status s = paused \/ status s = summary ->
  ev <> Click ResetButton ->
  sameRecording (step ev s) s /\
  (status (step ev s) = paused \/ status (step ev s) = summary).
Proof.
  intros Hs Hne.
  assert (Hh : sameRecording (handle ev s) s).
  { destruct ev as [b | position | | | x]; unfold handle.
    - destruct (rendered (status s) b) eqn:Hr;
        [|apply sameRecording_refl].
      destruct b; try apply sameRecording_setStatus;
        try apply sameRecording_refl.
      congruence.
    - destruct Hs as [E | E]; rewrite E; apply sameRecording_refl.
    - destruct Hs as [E | E]; rewrite E; apply sameRecording_refl.
    - destruct Hs as [E | E]; rewrite E; apply sameRecording_refl.
    - destruct (negb (Status_eqb (status s) summary));
        [apply sameRecording_onDragEnd | apply sameRecording_refl]. }
  assert (Hq : step ev s = handle ev s).
  { destruct Hh as (_ & Hd & He & _). now apply step_quiet. }
  split; [now rewrite Hq|].
  rewrite step_status.
  destruct ev as [b | | | | ]; try exact Hs.
  destruct Hs as [E | E]; rewrite E; destruct b; simpl; auto.
  contradiction.
Qed.

(** X8. Once a session is paused or stopped, nothing that happens before
    a reset changes its recording: the points, the distance, the elapsed
    time, the elevation gain, the maximum altitude, the speeds, the
    signal quality and the calories stay as they were, and the status
    stays paused or summary.  In particular a paused session never
    records again. *)
Theorem X8_recording_ends_at_pause :
  forall (evs : list Event) (s : State),
    status s = paused \/ status s = summary ->
    neverReset evs ->
    sameRecording (run evs s) s /\
    (status (run evs s) = paused \/ status (run evs s) = summary).
Proof.
  intros evs. induction evs as [|ev evs IH]; intros s Hs Hn.
  - split; [apply sameRecording_refl | exact Hs].
  - inversion Hn as [|? ? Hne Hrest]; subst.
    destruct (step_after_pause ev s Hs Hne) as [Hsame Hst].
    rewrite run_cons.
    destruct (IH (step ev s) Hst Hrest) as [IH1 IH2].
    split; [|exact IH2].
    now apply sameRecording_trans with (step ev s).
Qed.

(** X8 on a paused session that is sent fixes, ticks and clicks. *)
Lemma X8_recording_ends_at_pause_witness :
  let s := run pausedSession initial in
  let evs := [Fix trailheadFix; Tick; Click PlayButton; Click PauseButton;
              FixError; Click StopButton; Fix secondFix; Tick] in
  sameRecording (run evs s) s /\
  (status (run evs s) = paused \/ status (run evs s) = summary).
Proof.
  intros s evs. apply (X8_recording_ends_at_pause evs s).
  - left. unfold s, pausedSession. rewrite !run_cons. simpl run.
    now rewrite !step_Click_status.
  - unfold neverReset, evs. repeat constructor; discriminate.
Defined.

Lemma countTicks_cons (ev : Event) (evs : list Event) :
  countTicks (ev :: evs) =
  ((if isTick ev then 1 else 0) + countTicks evs)%Z.
Proof.
  unfold countTicks. simpl filter. destruct (isTick ev); simpl List.length; lia.
Qed.

Lemma run_ticks (evs : list Event) (s : State) :
  status s = active -> noClicks evs ->
  status (run evs s) = active /\
  elapsedTime (run evs s) = (elapsedTime s + countTicks evs)%Z.
Proof.
  revert s. induction evs as [|ev evs IH]; intros s Hs Hn.
  - split; [exact Hs|]. unfold countTicks. simpl. lia.
  - inversion Hn as [|? ? Hev Hrest]; subst.
    assert (Hst : status (step ev s) = active).
    { rewrite step_status. destruct ev; try exact Hs. contradiction. }
    assert (He : elapsedTime (step ev s) =
                 (elapsedTime s + (if isTick ev then 1 else 0))%Z).
    { destruct (step_rest ev s) as (_ & _ & _ & He & _). rewrite He.
      destruct ev as [b | position | | | x]; unfold handle, isTick.
      - contradiction.
      - rewrite Hs. simpl Status_eqb. cbv iota.
        destruct (onPosition_rest position s) as (_ & E & _). lia.
      - rewrite Hs. simpl. lia.
      - rewrite Hs. simpl. lia.
      - rewrite Hs. simpl negb. cbv iota.
        destruct (onDragEnd_rest x s) as (_ & _ & _ & E & _). lia. }
    rewrite run_cons. destruct (IH (step ev s) Hst Hrest) as [IH1 IH2].
    split; [exact IH1|]. rewrite IH2, He, countTicks_cons. lia.
Qed.

(** X9. In a session that is started and then receives fixes, failures,
    drags and ticks but no click, the elapsed time is the number of ticks
    and the calories are those of that many seconds; the session stays
    active. *)
Theorem X9_elapsedTime_counts_ticks :
  forall evs : list Event,
    noClicks evs ->
    let s := run (Click PlayButton :: evs) initial in
    status s = active /\
    elapsedTime s = countTicks evs /\
    calories s = caloriesAt (countTicks evs).
Proof.
  intros evs Hn. cbv zeta. rewrite run_cons.
  assert (Hs : status (step (Click PlayButton) initial) = active)
    by now rewrite step_Click_status.
  assert (H0 : elapsedTime (step (Click PlayButton) initial) = 0%Z).
  { destruct (step_rest (Click PlayButton) initial) as (_ & _ & _ & He & _).
    now rewrite He. }
  destruct (run_ticks evs _ Hs Hn) as [H1 H2]. rewrite H0 in H2.
  rewrite Z.add_0_l in H2.
  split; [exact H1|]. split; [exact H2|].
  rewrite <- H2. rewrite <- run_cons.
  apply (run_invariant
           (fun s => calories s = caloriesAt (elapsedTime s) /\
                     (0 <= elapsedTime s)%Z)).
  - cbn [initial elapsedTime calories].
    split; [now rewrite caloriesAt_0 | lia].
  - intros ev s. apply step_keeps_calories.
Qed.

(** X9 on a session of two fixes and three ticks. *)
Lemma X9_elapsedTime_counts_ticks_witness :
  let evs := [Fix trailheadFix; Tick; Tick; FixError; Fix secondFix; Tick] in
  elapsedTime (run (Click PlayButton :: evs) initial) = 3%Z.
Proof.
  intros evs.
  apply (X9_elapsedTime_counts_ticks evs).
  unfold noClicks, evs. repeat constructor.
Defined.

(** ** The screen, the average speed and the map *)

Lemma handle_screenIndex (ev : Event) (s : State) :
  screenIndex s = 0%Z \/ screenIndex s = 1%Z ->
  screenIndex (handle ev s) = 0%Z \/ screenIndex (handle ev s) = 1%Z.
Proof.
  intros Inv. destruct ev as [b | position | | | x]; simpl.
  - destruct (rendered (status s) b); [|exact Inv].
    destruct b; simpl; auto.
  - destruct (Status_eqb (status s) active); [|exact Inv].
    destruct (onPosition_rest position s) as (_ & _ & _ & _ & Hi).
    now rewrite Hi.
  - destruct (Status_eqb (status s) active); exact Inv.
  - destruct (Status_eqb (status s) active); exact Inv.
  - destruct (negb (Status_eqb (status s) summary)); [|exact Inv].
    unfold onDragEnd.
    destruct (JS.ltb x (-50)), (JS.ltb 50 x); simpl; auto.
Qed.

(** X10. After every sequence of events the screen index is 0 (map) or 1
    (stats); and a drag that ends within 50 pixels of its start, on
    either side, changes nothing. *)
Theorem X10_screenIndex :
  forall (evs : list Event) (x : R) (s : State),
    (screenIndex (run evs initial) = 0%Z \/
     screenIndex (run evs initial) = 1%Z) /\
    (-50 <= x <= 50 -> step (DragEnd x) s = s).
Proof.
  intros evs x s. split.
  - apply (run_invariant
             (fun s => screenIndex s = 0%Z \/ screenIndex s = 1%Z)).
    + now left.
    + intros ev s0 Inv.
      destruct (step_rest ev s0) as (_ & _ & _ & _ & _ & _ & _ & _ & _ & Hi).
      rewrite Hi. now apply handle_screenIndex.
  - intros Hx. apply step_same. unfold handle, onDragEnd.
    js_compare. now destruct (negb (Status_eqb (status s) summary)).
Qed.

(** X10 on a drag of thirty pixels to the left. *)
Lemma X10_screenIndex_witness : step (DragEnd (-30)) initial = initial.
Proof. apply (X10_screenIndex [] (-30) initial). lra. Defined.

(** X11. After every sequence of events, resets included: while time has
    elapsed the average speed is the distance divided by the elapsed
    hours. *)
Theorem X11_avgSpeed_while_time_elapsed :
  forall evs : list Event,
    let s := run evs initial in
    (0 < elapsedTime s)%Z ->
    avgSpeed s = distance s / (IZR (elapsedTime s) / 3600).
Proof.
  intros evs. cbv zeta. apply avgSpeed_while_elapsed.
Qed.

(** X11 at the end of the hike: one second, one hundredth of a degree. *)
Lemma X11_avgSpeed_while_time_elapsed_witness :
  let s := run [Click PlayButton; Fix trailheadFix; Tick; Fix secondFix;
                Click StopButton] initial in
  avgSpeed s = distance s / (IZR (elapsedTime s) / 3600).
Proof.
  intros s.
  apply (X11_avgSpeed_while_time_elapsed
           [Click PlayButton; Fix trailheadFix; Tick; Fix secondFix;
            Click StopButton]).
  fold s. unfold s. rewrite hike_summary_state. simpl. lia.
Defined.

Lemma currentPos_lastOf (s : State) :
  currentPos s = option_map (fun p => (lat p, lng p)) (lastOf (points s)).
Proof.
  unfold currentPos, lastOf.
  now destruct (0 <? List.length (points s))%nat.
Qed.

(** X12. A fix of an active session moves the marker and the centre of
    the map to its coordinates; the trace line is drawn from the second
    recorded point on.  Before the first point there is no marker and the
    map is centred on its default position. *)
Theorem X12_map_follows_last_fix :
  forall (position : Position) (s : State),
    status s = active ->
    let s' := step (Fix position) s in
    let here := (latitude (coords position), longitude (coords position)) in
    currentPos s' = Some here /\
    mapCenter s' = here /\
    markerShown s' = true /\
    polylineShown s' = markerShown s /\
    (points s = [] ->
     markerShown s = false /\ mapCenter s = (51.505, -0.09)).
Proof.
  intros position s Hs. cbv zeta.
  assert (Hp : points (step (Fix position) s) =
               points s ++ [newPointOf position])
    by now rewrite step_Fix_points, Hs.
  assert (Hc : currentPos (step (Fix position) s) =
               Some (latitude (coords position),
                     longitude (coords position))).
  { rewrite currentPos_lastOf, Hp, lastOf_snoc. reflexivity. }
  split; [exact Hc|].
  split; [unfold mapCenter; now rewrite Hc|].
  split; [unfold markerShown; now rewrite Hc|].
  split.
  - unfold polylineShown, markerShown. rewrite Hp, length_app.
    rewrite currentPos_lastOf.
    destruct (points s) as [|p ps] using rev_ind; [reflexivity|].
    rewrite lastOf_snoc, length_app. simpl.
    apply Nat.ltb_lt. lia.
  - intros He. unfold markerShown, mapCenter.
    rewrite currentPos_lastOf, He. now split.
Qed.

(** X12 on the first fix of a session. *)
Lemma X12_map_follows_last_fix_witness :
  let s := step (Click PlayButton) initial in
  currentPos (step (Fix secondFix) s) = Some (0, 0.01) /\
  polylineShown (step (Fix secondFix) s) = false /\
  mapCenter s = (51.505, -0.09).
Proof.
  intros s.
  assert (Hs : status s = active) by (unfold s; now rewrite step_Click_status).
  assert (Hp : points s = []).
  { unfold s.
    destruct (step_rest (Click PlayButton) initial) as (_ & Hq & _).
    now rewrite Hq. }
  destruct (X12_map_follows_last_fix secondFix s Hs)
    as (H1 & _ & _ & H4 & H5).
  destruct (H5 Hp) as [H6 H7].
  split; [exact H1|]. split; [now rewrite H4, H6 | exact H7].
Defined.

(** ** The exported document of any track *)

Local Open Scope string_scope.

Lemma count_time_points (ps : list Point) :
  List.length (filter (opens "time") (flat_map pointTags ps)) =
  List.length ps.
Proof.
  induction ps as [|p ps IH]; [reflexivity|].
  change (flat_map pointTags (p :: ps))
    with (pointTags p ++ flat_map pointTags ps)%list.
  rewrite filter_app, length_app, IH.
  unfold pointTags. now destruct (JS.truthy_opt (alt p)).
Qed.

(** X13. For every track, read with conversions that write no angle
    bracket: the exported document is well formed; between the opening
    and the closing tags of the document it holds the elements of the
    points in arrival order; it has one [<trkpt>] and one [<time>] per
    point, and one [<ele>] per point whose altitude is neither absent nor
    zero. *)
Theorem X13_export_structure :
  forall (Number_toString : R -> string) (Date_toISOString : Z -> string)
         (ps : list Point),
    (forall x, plain (Number_toString x) = true) ->
    (forall t, plain (Date_toISOString t) = true) ->
    let doc := generateGPX Number_toString Date_toISOString ps in
    wellFormed doc = true /\
    tagsOf doc = Some (docOpen ++ flat_map pointTags ps ++ docClose)%list /\
    countOpen "trkpt" doc = List.length ps /\
    countOpen "time" doc = List.length ps /\
    countOpen "ele" doc = List.length (filter hasEle ps).
Proof.
  intros fmt iso ps Hn Hd doc. unfold doc.
  split; [apply (wellFormed_generateGPX _ _ Hn Hd)|].
  split; [apply (tagsOf_generateGPX _ _ Hn Hd)|].
  split; [apply (countOpen_trkpt _ _ Hn Hd)|].
  split; [|apply (countOpen_ele _ _ Hn Hd)].
  unfold countOpen. rewrite (tagsOf_generateGPX _ _ Hn Hd).
  rewrite !filter_app, !length_app, count_time_points. simpl. lia.
Qed.

(** X13 on the two points of the hike and a point at sea level. *)
Lemma X13_export_structure_witness :
  let track :=
    [newPointOf trailheadFix; newPointOf seaLevelFix; newPointOf secondFix] in
  wellFormed (generateGPX zeroText epochText track) = true /\
  countOpen "trkpt" (generateGPX zeroText epochText track) = 3%nat.
Proof.
  intros track.
  destruct (X13_export_structure zeroText epochText track
              (fun _ => eq_refl) (fun _ => eq_refl))
    as (H1 & _ & H3 & _).
  split; [exact H1 | exact H3].
Defined.

(** The export of a longer track starts like the export of the track. *)
Lemma prefix_app (a b : string) : prefix a (a ++ b) = true.
Proof.
  induction a as [|c a IH]; simpl.
  - now destruct b.
  - destruct (ascii_dec c c) as [_ | H]; [exact IH | contradiction].
Qed.

(** X14. Recording more points only inserts text before the closing tags:
    the document of a track without its three closing lines is a prefix
    of the document of every track that continues it. *)
Theorem X14_export_grows_by_appending :
  forall (Number_toString : R -> string) (Date_toISOString : Z -> string)
         (ps more : list Point),
    let export := generateGPX Number_toString Date_toISOString in
    exists text,
      export ps = text ++ gpxTail /\
      prefix text (export (ps ++ more)%list) = true.
Proof.
  intros fmt iso ps more export.
  exists (gpxHead ++ body fmt iso ps). unfold export.
  rewrite !generateGPX_split, body_app. split.
  - now rewrite string_app_assoc.
  - rewrite <- !string_app_assoc. rewrite !string_app_assoc.
    rewrite <- (string_app_assoc gpxHead). apply prefix_app.
Qed.

Local Close Scope string_scope.

(** ** Heart rate and battery *)

Lemma byte_range (b : Byte.byte) : (0 <= Z.of_N (Byte.to_N b) < 256)%Z.
Proof. destruct b; vm_compute; split; congruence. Qed.

Lemma getUint8_range (view : list Byte.byte) (i : nat) (v : Z) :
  getUint8 view i = Some v -> (0 <= v < 256)%Z /\ (i < List.length view)%nat.
Proof.
  unfold getUint8. destruct (nth_error view i) as [b|] eqn:E; [|discriminate].
  intros [= <-]. split; [apply byte_range|].
  apply nth_error_Some. congruence.
Qed.

Lemma getUint8_none (view : list Byte.byte) (i : nat) :
  getUint8 view i = None -> (List.length view <= i)%nat.
Proof.
  unfold getUint8. destruct (nth_error view i) eqn:E; [discriminate|].
  intros _. now apply nth_error_None.
Qed.

(** X15. The listener of heart-rate notifications reads a rate from every
    notification of at least three bytes, and from none of fewer than two;
    a rate it reads lies between 0 and 65535. *)
Theorem X15_heartRate_measurement :
  forall value : list Byte.byte,
    match heartRateOfMeasurement value with
    | Some hr => (0 <= hr < 65536)%Z /\ (2 <= List.length value)%nat
    | None => (List.length value < 3)%nat
    end.
Proof.
  intros value. unfold heartRateOfMeasurement.
  destruct (getUint8 value 0) as [flags|] eqn:E0.
  - destruct (Z.land flags 1 =? 0)%Z.
    + destruct (getUint8 value 1) as [hr|] eqn:E1.
      * apply getUint8_range in E1 as [Hr Hl]. split; lia.
      * apply getUint8_none in E1. lia.
    + unfold getUint16LE.
      destruct (getUint8 value 1) as [lo|] eqn:E1.
      * destruct (getUint8 value 2) as [hi|] eqn:E2.
        -- apply getUint8_range in E1 as [Hlo Hl].
           apply getUint8_range in E2 as [Hhi _]. split; lia.
        -- apply getUint8_none in E2. lia.
      * apply getUint8_none in E1. lia.
  - apply getUint8_none in E0. lia.
Qed.

Lemma getUint8_app (view extra : list Byte.byte) (i : nat) (v : Z) :
  getUint8 view i = Some v -> getUint8 (view ++ extra) i = Some v.
Proof.
  intros H. pose proof (getUint8_range view i v H) as [_ Hl].
  unfold getUint8 in *. now rewrite nth_error_app1.
Qed.

(** X16. The bytes that follow the rate in a notification (energy, RR
    intervals) are ignored: a rate read from a notification is read from
    every notification that starts with the same bytes.  Of the flags
    byte only the lowest bit counts: it selects the 16-bit little-endian
    rate at offset 1 over the 8-bit rate. *)
Theorem X16_heartRate_ignores_trailing_bytes :
  forall (value extra : list Byte.byte) (hr : Z),
    heartRateOfMeasurement value = Some hr ->
    heartRateOfMeasurement (value ++ extra) = Some hr /\
    exists flags,
      getUint8 value 0 = Some flags /\
      (Z.land flags 1 = 0%Z -> getUint8 value 1 = Some hr) /\
      (Z.land flags 1 <> 0%Z ->
       exists lo hi, getUint8 value 1 = Some lo /\
                     getUint8 value 2 = Some hi /\
                     hr = (lo + 256 * hi)%Z).
Proof.
  intros value extra hr. unfold heartRateOfMeasurement.
  destruct (getUint8 value 0) as [flags|] eqn:E0; [|discriminate].
  rewrite (getUint8_app value extra 0 flags E0).
  destruct (Z.land flags 1 =? 0)%Z eqn:Ef.
  - intros H. split; [now apply getUint8_app|].
    exists flags. split; [reflexivity|]. split; [now intros _|].
    apply Z.eqb_eq in Ef. intros Hn. contradiction.
  - unfold getUint16LE.
    destruct (getUint8 value 1) as [lo|] eqn:E1; [|discriminate].
    destruct (getUint8 value 2) as [hi|] eqn:E2; [|discriminate].
    intros [= <-].
    rewrite (getUint8_app value extra 1 lo E1).
    rewrite (getUint8_app value extra 2 hi E2).
    split; [reflexivity|]. exists flags. split; [reflexivity|].
    apply Z.eqb_neq in Ef. split; [intros Hz; contradiction|].
    intros _. now exists lo, hi.
Qed.

(** X16 on a 16-bit notification of 300 beats with a trailing byte, and
    on an 8-bit notification of 72 beats. *)
Lemma X16_heartRate_ignores_trailing_bytes_witness :
  heartRateOfMeasurement (measurement16 ++ [Byte.x00; Byte.x04]) =
    Some 300%Z /\
  heartRateOfMeasurement (measurement8 ++ [Byte.xff]) = Some 72%Z.
Proof.
  split.
  - apply (X16_heartRate_ignores_trailing_bytes measurement16
             [Byte.x00; Byte.x04] 300). reflexivity.
  - apply (X16_heartRate_ignores_trailing_bytes measurement8
             [Byte.xff] 72). reflexivity.
Defined.

Lemma floor_unit_interval (x : R) (n : Z) :
  0 <= x < IZR n -> (0 <= JS.floor x < n)%Z.
Proof.
  intros [Hlo Hhi]. destruct (JSFacts.floor_spec x) as [Flo Fhi].
  split.
  - assert (H : (-1 < JS.floor x)%Z) by (apply lt_IZR; simpl; lra). lia.
  - apply lt_IZR. lra.
Qed.

(** X17. The simulated heart rate moves by at most two beats per update,
    for every value [Math.random] can return; an absent rate and a rate
    of zero restart at 85.  The lowest draw takes two beats off whatever
    the rate is, so the rate is not kept above zero. *)
Theorem X17_simulated_heart_rate :
  forall (random : R) (p : Z),
    0 <= random < 1 ->
    simulatedBeat random None = 85%Z /\
    simulatedBeat random (Some 0%Z) = 85%Z /\
    (p <> 0%Z ->
     (p - 2 <= simulatedBeat random (Some p) <= p + 2)%Z /\
     simulatedBeat 0 (Some p) = (p - 2)%Z).
Proof.
  intros random p Hr. split; [reflexivity|]. split; [reflexivity|].
  intros Hp. unfold simulatedBeat.
  apply Z.eqb_neq in Hp. rewrite Hp. split.
  - assert (H : (0 <= JS.floor (random * 5) < 5)%Z)
      by (apply floor_unit_interval; lra).
    lia.
  - rewrite (JSFacts.floor_unique (0 * 5) 0); [lia | lra].
Qed.

(** X17 on a rate of 1 and a draw of one half. *)
Lemma X17_simulated_heart_rate_witness :
  (1 - 2 <= simulatedBeat (/ 2) (Some 1%Z) <= 1 + 2)%Z /\
  simulatedBeat 0 (Some 1%Z) = (-1)%Z.
Proof.
  destruct (X17_simulated_heart_rate (/ 2) 1) as (_ & _ & H); [lra|].
  destruct H as [H1 H2]; [discriminate|].
  split; [exact H1 | exact H2].
Defined.

(** X18. The battery level shown is a whole percentage between 0 and 100
    for every level between 0 and 1 that the battery manager reports, 100
    for a full battery, and 100 when there is no battery manager. *)
Theorem X18_battery_percentage :
  forall level : R,
    0 <= level <= 1 ->
    (0 <= batteryLevelOf (Some level) <= 100)%Z /\
    batteryLevelOf (Some 1) = 100%Z /\
    batteryLevelOf None = 100%Z.
Proof.
  intros level [Hlo Hhi].
  assert (R0 : JS.round 0 = 0%Z)
    by (apply JSFacts.floor_unique; simpl; lra).
  assert (R100 : JS.round (1 * 100) = 100%Z)
    by (apply JSFacts.floor_unique; simpl; lra).
  split; [|split; [exact R100 | reflexivity]].
  unfold batteryLevelOf.
  pose proof (JSFacts.round_mono 0 (level * 100)) as H1.
  pose proof (JSFacts.round_mono (level * 100) (1 * 100)) as H2.
  rewrite R0 in H1. rewrite R100 in H2.
  split; [apply H1 | apply H2]; nra.
Qed.

(** X18 on a battery at 42.5 percent, shown as 43. *)
Lemma X18_battery_percentage_witness :
  (0 <= batteryLevelOf (Some 0.425%R) <= 100)%Z.
Proof. apply (X18_battery_percentage 0.425). lra. Defined.

(** ** The elapsed time as text *)

Local Open Scope string_scope.

Lemma string_length_app (a b : string) :
  String.length (a ++ b) = (String.length a + String.length b)%nat.
Proof. induction a as [|c a IH]; simpl; [reflexivity | now rewrite IH]. Qed.

(** Two texts that end in pieces of the same length are equal piece by
    piece. *)
Lemma string_app_inj (a b c d : string) :
  a ++ b = c ++ d -> String.length b = String.length d -> a = c /\ b = d.
Proof.
  revert c. induction a as [|x a IH]; intros c H L.
  - destruct c as [|y c]; [now split|].
    simpl in H. rewrite H in L. simpl in L.
    rewrite string_length_app in L. lia.
  - destruct c as [|y c].
    + simpl in H. rewrite <- H in L. simpl in L.
      rewrite string_length_app in L. lia.
    + simpl in H. injection H as -> H.
      destruct (IH c H L) as [-> ->]. now split.
Qed.

(** The decimal text of an integer determines it. *)
Lemma Z_toString_inj (m n : Z) : Z_toString m = Z_toString n -> m = n.
Proof.
  unfold Z_toString. intros H.
  assert (Hnil : forall z, Z.to_int z <> Decimal.Pos Decimal.Nil /\
                           Z.to_int z <> Decimal.Neg Decimal.Nil).
  { intros [|p|p]; simpl; split; try discriminate;
      intros [= E]; now apply (DecimalPos.Unsigned.to_uint_nonnil p). }
  apply DecimalZ.to_int_inj.
  assert (E : Some (Z.to_int m) = Some (Z.to_int n)).
  { rewrite <- (NilZero.isi (Z.to_int m)) by apply Hnil.
    rewrite <- (NilZero.isi (Z.to_int n)) by apply Hnil.
    now rewrite H. }
  now injection E.
Qed.

(** Below one hundred, padding the decimal text to two characters gives
    the two digits: checked on each of the hundred numbers. *)
Lemma padStart_twoDigits (n : Z) :
  (0 <= n < 100)%Z -> padStart 2 "0" (Z_toString n) = twoDigits n.
Proof.
  intros Hn.
  assert (Hall : forallb
                   (fun k => String.eqb
                               (padStart 2 "0" (Z_toString (Z.of_nat k)))
                               (twoDigits (Z.of_nat k)))
                   (seq 0 100) = true) by (vm_compute; reflexivity).
  rewrite forallb_forall in Hall.
  specialize (Hall (Z.to_nat n)).
  rewrite Z2Nat.id in Hall by lia.
  apply String.eqb_eq, Hall, in_seq. lia.
Qed.

Lemma twoDigits_inj (m n : Z) :
  (0 <= m < 100)%Z -> (0 <= n < 100)%Z -> twoDigits m = twoDigits n -> m = n.
Proof.
  intros Hm Hn H.
  assert (Hall : forallb
                   (fun k => forallb
                               (fun j => implb
                                           (String.eqb
                                              (twoDigits (Z.of_nat k))
                                              (twoDigits (Z.of_nat j)))
                                           (Nat.eqb k j))
                               (seq 0 100))
                   (seq 0 100) = true) by (vm_compute; reflexivity).
  rewrite forallb_forall in Hall.
  specialize (Hall (Z.to_nat m)).
  rewrite forallb_forall in Hall.
  assert (Hk : In (Z.to_nat m) (seq 0 100)) by (apply in_seq; lia).
  assert (Hj : In (Z.to_nat n) (seq 0 100)) by (apply in_seq; lia).
  specialize (Hall Hk (Z.to_nat n) Hj).
  rewrite !Z2Nat.id in Hall by lia.
  rewrite H, String.eqb_refl in Hall. simpl in Hall.
  apply Nat.eqb_eq in Hall. lia.
Qed.

(** The fields of a non-negative number of seconds. *)
Lemma time_fields (t : Z) :
  (0 <= t)%Z ->
  (Z.rem t 3600 / 60 = (t / 60) mod 60)%Z /\
  Z.rem t 60 = (t mod 60)%Z /\
  (0 <= (t / 60) mod 60 < 60)%Z /\ (0 <= t mod 60 < 60)%Z /\
  (0 <= t / 3600)%Z /\
  t = (3600 * (t / 3600) + 60 * ((t / 60) mod 60) + t mod 60)%Z.
Proof.
  intros Ht.
  rewrite !Z.rem_mod_nonneg by lia.
  repeat split; try (apply Z.mod_pos_bound; lia);
    try (apply Z.div_pos; lia);
    Z.to_euclidean_division_equations; lia.
Qed.

(** The text of a non-negative number of seconds, field by field. *)
Lemma formatTime_fields (t : Z) :
  (0 <= t)%Z ->
  formatTime t =
  (if (0 <? t / 3600)%Z then Z_toString (t / 3600) ++ ":" else EmptyString)
  ++ twoDigits ((t / 60) mod 60) ++ ":" ++ twoDigits (t mod 60).
Proof.
  intros Ht. destruct (time_fields t Ht) as (Hm & Hs & Bm & Bs & _).
  unfold formatTime. cbv zeta. rewrite Hm, Hs.
  rewrite !padStart_twoDigits by lia.
  destruct (0 <? t / 3600)%Z; [|reflexivity].
  now rewrite string_app_assoc.
Qed.

(** X19. For a non-negative number of seconds the minutes and the seconds
    are written with exactly two digits each, the hours in full and only
    from one hour on: below one hour the text is [mm:ss], five characters
    long; from one hour on it is the decimal hours followed by
    [:mm:ss]. *)
Theorem X19_formatTime_fields :
  forall t : Z,
    (0 <= t)%Z ->
    let mm := twoDigits ((t / 60) mod 60) in
    let ss := twoDigits (t mod 60) in
    ((t < 3600)%Z ->
     formatTime t = mm ++ ":" ++ ss /\ String.length (formatTime t) = 5%nat) /\
    ((3600 <= t)%Z ->
     formatTime t = Z_toString (t / 3600) ++ ":" ++ mm ++ ":" ++ ss /\
     String.length (formatTime t) =
       (String.length (Z_toString (t / 3600)) + 6)%nat).
Proof.
  intros t Ht mm ss. rewrite (formatTime_fields t Ht). fold mm ss. split.
  - intros Hlt.
    assert (E : (t / 3600 = 0)%Z) by (apply Z.div_small; lia).
    rewrite E. simpl. split; reflexivity.
  - intros Hge.
    assert (E : (0 < t / 3600)%Z) by (apply Z.div_str_pos; lia).
    apply Z.ltb_lt in E. rewrite E.
    rewrite string_app_assoc. split; [reflexivity|].
    rewrite string_length_app. simpl. reflexivity.
Qed.

(** X19 one second before the hour, and on the hour. *)
Lemma X19_formatTime_fields_witness :
  formatTime 3599 = "59:59" /\ formatTime 3600 = "1:00:00".
Proof.
  split.
  - apply (X19_formatTime_fields 3599); lia.
  - apply (X19_formatTime_fields 3600); lia.
Defined.

Lemma formatTime_inj (t u : Z) :
  (0 <= t)%Z -> (0 <= u)%Z -> formatTime t = formatTime u -> t = u.
Proof.
  intros Ht Hu H.
  rewrite (formatTime_fields t Ht), (formatTime_fields u Hu) in H.
  destruct (time_fields t Ht) as (_ & _ & Bm & Bs & Bh & Et).
  destruct (time_fields u Hu) as (_ & _ & Bm' & Bs' & Bh' & Eu).
  apply string_app_inj in H as [Hh Hrest]; [|reflexivity].
  unfold twoDigits in Hrest. injection Hrest as D1 D2 D3 D4.
  assert (Hm : ((t / 60) mod 60 = (u / 60) mod 60)%Z).
  { apply twoDigits_inj; try lia. unfold twoDigits. now rewrite D1, D2. }
  assert (Hs : (t mod 60 = u mod 60)%Z).
  { apply twoDigits_inj; try lia. unfold twoDigits. now rewrite D3, D4. }
  assert (Hhours : (t / 3600 = u / 3600)%Z).
  { destruct (0 <? t / 3600)%Z eqn:E1, (0 <? u / 3600)%Z eqn:E2.
    - apply string_app_inj in Hh as [Hh _]; [|reflexivity].
      now apply Z_toString_inj.
    - exfalso. destruct (Z_toString (t / 3600)); discriminate.
    - exfalso. destruct (Z_toString (u / 3600)); discriminate.
    - apply Z.ltb_ge in E1, E2. lia. }
  rewrite Et, Eu, Hm, Hs, Hhours. reflexivity.
Qed.

(** X20. Two different non-negative numbers of seconds are never written
    the same. *)
Theorem X20_formatTime_distinguishes :
  forall t u : Z,
    (0 <= t)%Z -> (0 <= u)%Z -> t <> u -> formatTime t <> formatTime u.
Proof.
  intros t u Ht Hu Hne H. apply Hne. now apply formatTime_inj.
Qed.

(** X20 on an hour and on sixty minutes less one second. *)
Lemma X20_formatTime_distinguishes_witness :
  formatTime 3600 <> formatTime 3599.
Proof. apply (X20_formatTime_distinguishes 3600 3599); lia. Defined.

Local Close Scope string_scope.

(** ** Reset and download *)

Lemma forgetKept_handle (ev : Event) (s : State) :
  forgetKept (handle ev (forgetKept s)) = forgetKept (handle ev s).
Proof.
  destruct ev as [b | position | | | x]; unfold handle;
    change (status (forgetKept s)) with (status s).
  - destruct (rendered (status s) b); [|now destruct s].
    destruct s; destruct b; reflexivity.
  - destruct (Status_eqb (status s) active); [|now destruct s].
    destruct s as [st ps d t g m cs av sig cal scr].
    unfold onPosition, appendPoint, forgetKept.
    cbn [setGpsSignal setAvgSpeed setCurrentSpeed setPoints setDistance
         setElevationGain setMaxAltitude status points distance elapsedTime
         elevationGain maxAltitude currentSpeed avgSpeed gpsSignal calories
         screenIndex].
    destruct (lastOf ps) as [l|];
      [destruct (climbs (newPointOf position) l)|];
      destruct (tops (newPointOf position) m);
      destruct (coords_speed (coords position)); reflexivity.
  - destruct (Status_eqb (status s) active); now destruct s.
  - destruct (Status_eqb (status s) active); now destruct s.
  - destruct (negb (Status_eqb (status s) summary)); [|now destruct s].
    unfold onDragEnd.
    destruct (JS.ltb x (-50)), (JS.ltb 50 x); now destruct s.
Qed.

Lemma forgetKept_effect (s : State) :
  forgetKept (avgSpeedEffect s) = forgetKept s.
Proof.
  unfold avgSpeedEffect. destruct (0 <? elapsedTime s)%Z; now destruct s.
Qed.

Lemma forgetKept_step (ev : Event) (s t : State) :
  forgetKept s = forgetKept t ->
  forgetKept (step ev s) = forgetKept (step ev t).
Proof.
  intros H.
  assert (E : forall u, forgetKept (step ev u) = forgetKept (handle ev u)).
  { intros u. unfold step.
    destruct (avgSpeedDeps u (handle ev u)); [|reflexivity].
    apply forgetKept_effect. }
  rewrite !E, <- (forgetKept_handle ev s), <- (forgetKept_handle ev t).
  now rewrite H.
Qed.

Lemma forgetKept_run (evs : list Event) (s t : State) :
  forgetKept s = forgetKept t ->
  forgetKept (run evs s) = forgetKept (run evs t).
Proof.
  revert s t. induction evs as [|ev evs IH]; intros s t H; [exact H|].
  rewrite !run_cons. apply IH. now apply forgetKept_step.
Qed.

(** X21. A reset starts a fresh recording: whatever happened before the
    summary that is reset, every later sequence of events leads to the
    status, points, distance, elapsed time, elevation gain, maximum
    altitude, calories and screen that it leads to from the state on
    mount.  (The current speed, the average speed and the signal quality
    are the cells the reset does not clear.) *)
Theorem X21_reset_starts_fresh :
  forall (before after : list Event),
    status (run before initial) = summary ->
    let s := run (before ++ Click ResetButton :: after) initial in
    let fresh := run after initial in
    status s = status fresh /\ points s = points fresh /\
    distance s = distance fresh /\ elapsedTime s = elapsedTime fresh /\
    elevationGain s = elevationGain fresh /\
    maxAltitude s = maxAltitude fresh /\ calories s = calories fresh /\
    screenIndex s = screenIndex fresh.
Proof.
  intros before after Hs. cbv zeta.
  assert (H : forgetKept (run (before ++ Click ResetButton :: after) initial)
              = forgetKept (run after initial)).
  { unfold run at 1. rewrite fold_left_app. cbn [fold_left].
    fold (run before initial).
    fold (run after (step (Click ResetButton) (run before initial))).
    apply forgetKept_run. rewrite (step_Reset _ Hs).
    now destruct (run before initial). }
  revert H.
  generalize (run (before ++ Click ResetButton :: after) initial).
  generalize (run after initial).
  intros [] []. unfold forgetKept. simpl. intros [= -> -> -> -> -> -> -> ->].
  repeat split.
Qed.

(** X21 on a second hike after the hike that was stopped and reset. *)
Lemma X21_reset_starts_fresh_witness :
  let before := [Click PlayButton; Fix trailheadFix; Tick; Fix secondFix;
                 Click StopButton] in
  let after := [Click PlayButton; Fix seaLevelFix; Tick] in
  elapsedTime (run (before ++ Click ResetButton :: after) initial) =
  elapsedTime (run after initial).
Proof.
  intros before after.
  apply (X21_reset_starts_fresh before after).
  unfold before. now rewrite hike_summary_state.
Defined.

Lemma run_app (evs1 evs2 : list Event) (s : State) :
  run (evs1 ++ evs2) s = run evs2 (run evs1 s).
Proof. unfold run. now rewrite fold_left_app. Qed.

(** X22. The download of a session that was started, received a sequence
    of fixes and was stopped is the export of exactly these fixes, in
    arrival order, with one [<trkpt>] for each; while the session is
    active there is no download.  (Read with conversions that write no
    angle bracket.) *)
Theorem X22_download_holds_every_fix :
  forall (Number_toString : R -> string) (Date_toISOString : Z -> string)
         (positions : list Position),
    (forall x, plain (Number_toString x) = true) ->
    (forall t, plain (Date_toISOString t) = true) ->
    let recording := run (Click PlayButton :: map Fix positions) initial in
    let stopped := step (Click StopButton) recording in
    let track := map newPointOf positions in
    downloadedDocument Number_toString Date_toISOString recording = None /\
    downloadedDocument Number_toString Date_toISOString stopped =
      Some (generateGPX Number_toString Date_toISOString track) /\
    tagsOf (generateGPX Number_toString Date_toISOString track) =
      Some (docOpen ++ flat_map pointTags track ++ docClose) /\
    countOpen "trkpt" (generateGPX Number_toString Date_toISOString track) =
      List.length positions.
Proof.
  intros fmt iso positions Hn Hd. cbv zeta.
  assert (Hs0 : status (step (Click PlayButton) initial) = active)
    by now rewrite step_Click_status.
  destruct (run_fixes_points positions _ Hs0) as [Hst Hpts].
  assert (Hp0 : points (step (Click PlayButton) initial) = []).
  { destruct (step_rest (Click PlayButton) initial) as (_ & Hq & _).
    now rewrite Hq. }
  rewrite Hp0 in Hpts. simpl app in Hpts. rewrite run_cons.
  split; [|split; [|split]].
  - unfold downloadedDocument. now rewrite Hst.
  - unfold downloadedDocument.
    rewrite step_Click_status, Hst. simpl.
    destruct (step_rest (Click StopButton)
                (run (map Fix positions) (step (Click PlayButton) initial)))
      as (_ & Hq & _).
    rewrite Hq. unfold handle. rewrite Hst. simpl. now rewrite Hpts.
  - apply (tagsOf_generateGPX _ _ Hn Hd).
  - rewrite (countOpen_trkpt _ _ Hn Hd). apply length_map.
Qed.

(** X22 on the two fixes of the hike. *)
Lemma X22_download_holds_every_fix_witness :
  countOpen "trkpt"
    (generateGPX zeroText epochText
       (map newPointOf [trailheadFix; secondFix])) = 2%nat.
Proof.
  apply (X22_download_holds_every_fix zeroText epochText
           [trailheadFix; secondFix] (fun _ => eq_refl) (fun _ => eq_refl)).
Defined.

(** ** The distance of a track *)

Lemma legs_greatCircle (ps : list Point) : legs ps = greatCircleLegs ps.
Proof.
  induction ps as [|p [|q rest] IH]; try reflexivity.
  change (legLength p q :: legs (q :: rest) =
          greatCircle (lat p) (lng p) (lat q) (lng q) ::
          greatCircleLegs (q :: rest)).
  rewrite IH. unfold legLength. now rewrite haversine_greatCircle.
Qed.

Lemma pathLength_greatCircle (ps : list Point) :
  pathLength ps = greatCircleLength ps.
Proof.
  unfold pathLength, greatCircleLength. now rewrite legs_greatCircle.
Qed.

Lemma noAntipodalLeg_hike :
  noAntipodalLeg [newPointOf trailheadFix; newPointOf secondFix].
Proof.
  simpl. split; [apply notAntipodal_equator_step | exact I].
Qed.

(** X23. While no two consecutive recorded points are antipodal or nearly
    so, the cumulative distance is the great-circle length of the track:
    the sum, over each recorded point and the next in arrival order, of
    the radius 6371 km times their central angle.  A fix that extends
    such a track never lowers the distance; and a session that is started
    and receives a sequence of fixes records exactly these. *)
Theorem X23_distance_is_great_circle_length :
  forall (evs : list Event) (position : Position) (positions : list Position),
    let s := run evs initial in
    let session := run (Click PlayButton :: map Fix positions) initial in
    (noAntipodalLeg (points s) ->
     distance s = greatCircleLength (points s)) /\
    (noAntipodalLeg (points s ++ [newPointOf position]) ->
     distance s <= distance (step (Fix position) s)) /\
    points session = map newPointOf positions /\
    (noAntipodalLeg (map newPointOf positions) ->
     distance session = greatCircleLength (map newPointOf positions)).
Proof.
  intros evs position positions s session.
  assert (Hinit : distance initial = pathLength (points initial)).
  { unfold pathLength. reflexivity. }
  assert (Hp : points session = map newPointOf positions).
  { unfold session. rewrite run_cons.
    destruct (run_fixes_points positions (step (Click PlayButton) initial))
      as [_ Hp]; [now rewrite step_Click_status|].
    rewrite Hp.
    destruct (step_rest (Click PlayButton) initial) as (_ & Hq & _).
    now rewrite Hq. }
  split; [|split; [|split]].
  - intros _. unfold s. rewrite (run_keeps_path evs initial Hinit).
    apply pathLength_greatCircle.
  - intros _. apply step_Fix_distance.
  - exact Hp.
  - intros _. unfold session.
    rewrite (run_keeps_path (Click PlayButton :: map Fix positions) initial
               Hinit).
    fold session. rewrite Hp. apply pathLength_greatCircle.
Qed.

(** X23 on the hike: two fixes one hundredth of a degree apart. *)
Lemma X23_distance_is_great_circle_length_witness :
  let s := run [Click PlayButton; Fix trailheadFix] initial in
  let session := run (Click PlayButton :: map Fix [trailheadFix; secondFix])
                   initial in
  distance s = greatCircleLength (points s) /\
  distance s <= distance (step (Fix secondFix) s) /\
  distance session =
  greatCircleLength [newPointOf trailheadFix; newPointOf secondFix].
Proof.
  intros s session.
  assert (Hp : points s = [newPointOf trailheadFix]).
  { unfold s. rewrite !run_cons, hike_started, hike_first_fix.
    reflexivity. }
  destruct (X23_distance_is_great_circle_length
              [Click PlayButton; Fix trailheadFix] secondFix
              [trailheadFix; secondFix]) as (H1 & H2 & _ & H4).
  fold s in H1, H2. fold session in H4.
  split; [apply H1; rewrite Hp; exact I|].
  split; [apply H2; rewrite Hp; apply noAntipodalLeg_hike|].
  apply H4, noAntipodalLeg_hike.
Defined.
